(** * The Picorules Book: registry, hash router, search filter and theme

    A shallow embedding of the browser application of the documentation
    site: the document registry ([docs/index.ts]), the hash router
    ([hooks/useHashRouter.ts]) and the component state of [App.tsx]
    (selection, search query, theme).

    JavaScript strings are modelled as [string]: a sequence of code units,
    restricted to the range U+0000..U+00FF (one [ascii] per code unit).
    The registry, every URL fragment a browser reports and the two theme
    literals all live in that range. *)

From Stdlib Require Import Ascii Bool Arith Lia.
From stdpp Require Import gmap strings list.

Declare Scope js_scope.
Delimit Scope js_scope with js.
Infix "===" := String.eqb (at level 70, no associativity) : js_scope.
Open Scope js_scope.

(* Appending to a string literal computes under [simpl]. *)
#[local] Arguments String.append !s1 s2 : simpl nomatch.

(** ** String built-ins *)

Module JS.

(** ECMAScript LineTerminator code units below U+0100: LF and CR. *)
Definition isLineTerminator (c : ascii) : bool :=
  match c with
  | "010" | "013" => true
  | _ => false
  end%char.

(** ECMAScript WhiteSpace code units below U+0100: TAB, VT, FF, SP, NBSP. *)
Definition isWhiteSpace (c : ascii) : bool :=
  match c with
  | "009" | "011" | "012" | " " | "160" => true
  | _ => false
  end%char.

(** What [String.prototype.trim] strips: WhiteSpace and LineTerminator. *)
Definition isTrimmed (c : ascii) : bool := isWhiteSpace c || isLineTerminator c.

(** [s.startsWith(p)] *)
Fixpoint startsWith (s p : string) {struct p} : bool :=
  match p, s with
  | EmptyString, _ => true
  | String _ _, EmptyString => false
  | String b p', String a s' => Ascii.eqb a b && startsWith s' p'
  end.

(** [s.slice(n)] for [0 <= n]. *)
Fixpoint slice (n : nat) (s : string) : string :=
  match n, s with
  | O, _ => s
  | S _, EmptyString => EmptyString
  | S n', String _ s' => slice n' s'
  end.

(** [s.includes(q)]: [q] occurs in [s] at some position; the empty
    string occurs in every string. *)
Fixpoint includes (s q : string) : bool :=
  startsWith s q ||
  match s with
  | EmptyString => false
  | String _ s' => includes s' q
  end.

(** [s.replace(pat, rep)] with a string pattern: the first occurrence of
    [pat] is replaced, the rest is kept.  [rep] is taken literally (the
    one call of the program passes the empty string, which holds no [$]
    pattern). *)
Fixpoint replace (s pat rep : string) : string :=
  if startsWith s pat then rep +:+ slice (String.length pat) s
  else match s with
       | EmptyString => EmptyString
       | String c s' => String c (replace s' pat rep)
       end.

(** Lower-case mapping of one code unit below U+0100: A-Z, and the
    Latin-1 capitals U+00C0..U+00DE without the multiplication sign. *)
Definition lowerChar (c : ascii) : ascii :=
  let n := nat_of_ascii c in
  if ((65 <=? n) && (n <=? 90))
     || ((192 <=? n) && (n <=? 222) && negb (n =? 215))
  then ascii_of_nat (n + 32)
  else c.

(** [s.toLowerCase()] *)
Fixpoint toLowerCase (s : string) : string :=
  match s with
  | EmptyString => EmptyString
  | String c s' => String (lowerChar c) (toLowerCase s')
  end.

Fixpoint trimStart (s : string) : string :=
  match s with
  | EmptyString => EmptyString
  | String c s' => if isTrimmed c then trimStart s' else s
  end.

Fixpoint trimEnd (s : string) : string :=
  match s with
  | EmptyString => EmptyString
  | String c s' =>
      let t := trimEnd s' in
      if isTrimmed c && (t === "") then EmptyString else String c t
  end.

(** [s.trim()] *)
Definition trim (s : string) : string := trimEnd (trimStart s).

(** [every] over the code units of a string. *)
Fixpoint every (p : ascii -> bool) (s : string) : bool :=
  match s with
  | EmptyString => true
  | String c s' => p c && every p s'
  end.

(** [hash.match(/^#\/(.+)$/)], the capture group of a successful match.
    The expression has no flags: [^] and [$] are the two ends of the
    input and [.] is any code unit but a line terminator, so the input
    matches exactly when it is [#/] followed by one or more code units,
    none of them a line terminator. *)
Definition matchCanonical (hash : string) : option string :=
  if startsWith hash "#/" then
    let rest := slice 2 hash in
    if negb (rest === "") && every (fun c => negb (isLineTerminator c)) rest
    then Some rest else None
  else None.

End JS.

(** ** The document registry ([docs/index.ts]) *)

Record DocPage := {
  id : string;
  title : string;
  description : string;
  content : string;
}.

Module Content.
Section Raw.

(** The bundler's [?raw] import: the text of a markdown file, by path.
    The application never looks into it. *)
Variable raw : string -> string.

(** [export const docs: DocPage[]], the eight chapters of the book. *)
Definition docs : list DocPage := [
  {| id := "introduction";
     title := "Introduction";
     description := "What is Picorules and why it exists";
     content := raw "./01-introduction.md" |};
  {| id := "tutorial";
     title := "Tutorial";
     description := "Step-by-step guide to writing your first ruleblocks";
     content := raw "./02-tutorial.md" |};
  {| id := "language-reference";
     title := "Language Reference";
     description := "Complete syntax specification for functional and conditional statements";
     content := raw "./03-language-reference.md" |};
  {| id := "eadv-model";
     title := "EADV Model";
     description := "Understanding the Entity-Attribute-Date-Value data structure";
     content := raw "./04-eadv-model.md" |};
  {| id := "functions-reference";
     title := "Functions Reference";
     description := "Complete reference of all available functions and operators";
     content := raw "./05-functions-reference.md" |};
  {| id := "jinja2-templating";
     title := "Jinja2 Templating";
     description := "Creating dashboard templates with Jinja2 syntax";
     content := raw "./06-jinja2-templating.md" |};
  {| id := "examples";
     title := "Examples & Cookbook";
     description := "Real-world clinical patterns and complete ruleblock examples";
     content := raw "./07-examples.md" |};
  {| id := "developers";
     title := "Developers";
     description := "Core team, contributing guidelines, and project architecture";
     content := raw "./08-developers.md" |}
].

(** The registry of the first edition of the site (four pages). *)
Definition docs_first_edition : list DocPage := [
  {| id := "overview";
     title := "Picorules Overview";
     description := "High-level motivation, repository layout, and core architecture concepts.";
     content := raw "./overview.md" |};
  {| id := "language";
     title := "Language & Syntax";
     description := "Statement types, directives, and idiomatic Picorules patterns.";
     content := raw "./language.md" |};
  {| id := "ruleblocks";
     title := "Working with Ruleblocks";
     description := "Naming conventions, update workflows, and citation usage.";
     content := raw "./ruleblocks.md" |};
  {| id := "templates";
     title := "Templates & Development Notes";
     description := "Template pack structure plus operational guardrails for rollouts.";
     content := raw "./templates-and-development.md" |}
].

End Raw.
End Content.

(** [docs.find((d) => d.id === docId)]: the first record with that id,
    [None] for [undefined]. *)
Definition findById (docs : list DocPage) (docId : string) : option DocPage :=
  List.find (fun d => id d === docId) docs.

(** The ids of a registry, in order. *)
Definition ids (docs : list DocPage) : list string := List.map id docs.

(** ** The browser: location, session history, queued events *)

Module Browser.

(** [window.location] of a page served over http(s), as its getters
    report it: [pathname] is the normalised path of the URL; [hash] is the
    empty string when the URL has no fragment or an empty one, and [#]
    followed by the fragment otherwise. *)
Record Location := {
  pathname : string;
  search : string;
  hash : string;
}.

(** [history] holds the session history entries before the current one,
    the most recent first; [hashchange] counts the [hashchange] events
    the browser has queued and not yet handed to the listener. *)
Record Window := {
  location : Location;
  history : list Location;
  hashchange : nat;
}.

Definition hexDigit (n : nat) : ascii :=
  ascii_of_nat (if n <? 10 then 48 + n else 55 + n).

Definition percentByte (b : nat) : string :=
  String "%" (String (hexDigit (b / 16)) (String (hexDigit (b mod 16)) "")).

(** The URL standard's fragment percent-encode set: C0 controls, space,
    the double quote, [<], [>], the backtick and everything above [~]. *)
Definition inFragmentSet (c : ascii) : bool :=
  let n := nat_of_ascii c in
  (n <=? 32) || (n =? 34) || (n =? 60) || (n =? 62) || (n =? 96) || (126 <? n).

Definition isTabOrNewline (c : ascii) : bool :=
  match c with
  | "009" | "010" | "013" => true
  | _ => false
  end%char.

(** One code unit of a fragment as the URL parser stores it: tabs and
    newlines are dropped, code units of the percent-encode set are
    written as the escapes of their UTF-8 bytes. *)
Definition encodeFragmentChar (c : ascii) : string :=
  let n := nat_of_ascii c in
  if isTabOrNewline c then ""
  else if negb (inFragmentSet c) then String c ""
  else if n <? 128 then percentByte n
  else percentByte (192 + n / 64) +:+ percentByte (128 + n mod 64).

Fixpoint encodeFragment (s : string) : string :=
  match s with
  | EmptyString => EmptyString
  | String c s' => encodeFragmentChar c +:+ encodeFragment s'
  end.

(** [window.location.hash = value], assigned once the document has
    completely loaded or with user activation (a click): one leading [#]
    is dropped, the rest is parsed as the new fragment; when the fragment
    does not change nothing happens, otherwise the browser navigates to
    the new URL (a new history entry) and queues a [hashchange] event.
    An absent and an empty fragment both read as the empty [hash]; the
    program never assigns either.  The assignment made while the
    document is still loading is [replacingEntry] below. *)
Definition setHash (value : string) (w : Window) : Window :=
  let input := match value with
               | String "#"%char rest => rest
               | _ => value
               end in
  let fragment := encodeFragment input in
  let hash' := if fragment === "" then "" else String "#" fragment in
  if hash' === hash (location w) then w
  else {| location := {| pathname := pathname (location w);
                         search := search (location w);
                         hash := hash' |};
          history := location w :: history w;
          hashchange := S (hashchange w) |}.

(** A navigation made while the document is still loading and without
    user activation replaces the current history entry instead of adding
    one (HTML Standard, the navigation steps of the [Location] object):
    of the window [after] such a navigation, started on [before], the
    entries before the current one are those of [before]. *)
Definition replacingEntry (before after : Window) : Window :=
  {| location := location after;
     history := history before;
     hashchange := hashchange after |}.

(** [history.pushState(null, '', path)] for [path] a path as
    [location.pathname] reports it, without query and fragment: a new
    entry for that URL becomes the current one, the entry left stays in
    the session history, and no event is fired.  A path that starts with
    two slashes does not read as a path: it is a scheme-relative URL,
    with a host of its own, and for a URL of another origin the call
    throws a [SecurityError], which is [None] here.  (A path that names
    the page's own host after the two slashes is not modelled.) *)
Definition pushState (path : string) (w : Window) : option Window :=
  if JS.startsWith path "//" then None
  else Some {| location := {| pathname := path; search := ""; hash := "" |};
               history := location w :: history w;
               hashchange := hashchange w |}.

(** The user follows a link to, or types, a URL of this page whose
    [hash] is [h]. *)
Definition follow (h : string) (w : Window) : Window :=
  if h === hash (location w) then w
  else {| location := {| pathname := pathname (location w);
                         search := search (location w);
                         hash := h |};
          history := location w :: history w;
          hashchange := S (hashchange w) |}.

(** The Back button: the previous entry becomes the current one, with a
    [hashchange] event when its fragment is another one. *)
Definition back (w : Window) : Window :=
  match history w with
  | [] => w
  | prev :: older =>
      {| location := prev;
         history := older;
         hashchange := if hash prev === hash (location w)
                       then hashchange w else S (hashchange w) |}
  end.

End Browser.
Import Browser.

(** ** The hash router ([hooks/useHashRouter.ts]) *)

Inductive Route :=
| Landing
| Doc (docId : string).

Record Router := {
  window : Window;
  route : Route;
}.

Inductive Event :=
| Navigate (newRoute : Route)  (* the application calls [navigate] *)
| Follow (h : string)          (* the user changes the fragment *)
| Back                         (* the user goes back one entry *)
| HashChange.                  (* the browser delivers a queued event *)

Section Routing.

Variable docs : list DocPage.

(** [parseHash()]: the route read from [window.location.hash], and the
    window after the legacy redirect, if any. *)
Definition parseHash (w : Window) : Route * Window :=
  let hash := hash (location w) in
  let canonical :=
    match JS.matchCanonical hash with
    | Some docId =>
        match findById docs docId with
        | Some _ => (Doc docId, w)
        | None => (Landing, w)
        end
    | None => (Landing, w)
    end in
  if (hash === "") || (hash === "#") || (hash === "#/") then (Landing, w)
  else if JS.startsWith hash "#doc-" then
    let docId := JS.replace hash "#doc-" "" in
    match findById docs docId with
    | Some _ => (Doc docId, setHash ("#/" +:+ docId) w)
    | None => canonical
    end
  else canonical.

(** [useState<Route>(parseHash)]: the router when the hook mounts.  The
    hook mounts with the first render, while the document is loading and
    before any click, so the legacy redirect of this parse replaces the
    current entry. *)
Definition useHashRouter (w : Window) : Router :=
  let (r, w') := parseHash w in
  {| window := replacingEntry w w'; route := r |}.

(** [handleHashChange]: [setRoute(parseHash())].  The listener runs in a
    loaded document. *)
Definition handleHashChange (st : Router) : Router :=
  let (r, w') := parseHash (window st) in {| window := w'; route := r |}.

(** [navigate(newRoute)], called from a click.  When [pushState] throws,
    the exception leaves [navigate] before [setRoute]: nothing changes. *)
Definition navigate (newRoute : Route) (st : Router) : Router :=
  match newRoute with
  | Landing =>
      match pushState (pathname (location (window st))) (window st) with
      | Some w' => {| window := w'; route := newRoute |}
      | None => st
      end
  | Doc docId =>
      {| window := setHash ("#/" +:+ docId) (window st);
         route := route st |}
  end.

(** The browser hands one queued [hashchange] event to the listener. *)
Definition deliver (st : Router) : Router :=
  match hashchange (window st) with
  | O => st
  | S n =>
      handleHashChange
        {| window := {| location := location (window st);
                        history := history (window st);
                        hashchange := n |};
           route := route st |}
  end.

Definition step (st : Router) (e : Event) : Router :=
  match e with
  | Navigate r => navigate r st
  | Follow h => {| window := follow h (window st); route := route st |}
  | Back => {| window := back (window st); route := route st |}
  | HashChange => deliver st
  end.

Definition run (events : list Event) (st : Router) : Router :=
  List.fold_left step events st.

(** A route the registry can serve. *)
Definition validRoute (r : Route) : Prop :=
  match r with
  | Landing => True
  | Doc docId => exists d, In d docs /\ id d = docId
  end.

End Routing.


(** ** Evaluation with exceptions and a record of array reads

    Indexing an array out of range is no error in JavaScript, it yields
    [undefined]; reading a property of [undefined] throws a [TypeError].
    Each computation returns its outcome and the index reads it made. *)

Module Eff.

Record IndexRead := {
  arrayLength : nat;
  readIndex : nat;
}.

Inductive Outcome (A : Type) :=
| Returned (a : A)
| TypeError.
Arguments Returned {A} a.
Arguments TypeError {A}.

Definition Eff (A : Type) : Type := Outcome A * list IndexRead.

Definition ret {A} (a : A) : Eff A := (Returned a, []).

Definition bind {A B} (m : Eff A) (k : A -> Eff B) : Eff B :=
  match m with
  | (Returned a, reads) => let (r, reads') := k a in (r, reads ++ reads')
  | (TypeError, reads) => (TypeError, reads)
  end.

(** [arr[i]] *)
Definition arrayGet {A} (arr : list A) (i : nat) : Eff (option A) :=
  (Returned (arr !! i), [{| arrayLength := length arr; readIndex := i |}]).

(** [x.f], where [x] may be [undefined]. *)
Definition prop {A B} (f : A -> B) (x : option A) : Eff B :=
  match x with
  | Some a => ret (f a)
  | None => (TypeError, [])
  end.

Definition inRange (r : IndexRead) : Prop := readIndex r < arrayLength r.

End Eff.
Import Eff.

Notation "'let*' x := m 'in' k" := (bind m (fun x => k))
  (at level 10, x pattern, m at level 200, k at level 200) : js_scope.

(** ** The component ([App.tsx]) *)

(** The three [useState] cells.  [theme] is typed ['light' | 'dark'] in
    the source; the type is erased at run time, so the cell holds a string. *)
Record AppState := {
  selectedDocId : string;
  query : string;
  theme : string;
}.

(** What the component reads and writes outside itself: [localStorage],
    the class list of the root element, and the answer of
    [matchMedia('(prefers-color-scheme: dark)').matches]. *)
Record Host := {
  localStorage : gmap string string;
  classList : gset string;
  prefersDark : bool;
}.

(** The initializer of the [theme] cell.  [if (savedTheme)] holds for a
    string that is not empty. *)
Definition initialTheme (h : Host) : string :=
  let fromSystem := if prefersDark h then "dark" else "light" in
  match localStorage h !! "theme" with
  | Some savedTheme => if savedTheme === "" then fromSystem else savedTheme
  | None => fromSystem
  end.

(** The theme effect: the [dark] class of the root element follows the
    theme, and the theme is stored. *)
Definition applyTheme (st : AppState) (h : Host) : Host :=
  {| localStorage := <["theme" := theme st]> (localStorage h);
     classList := if theme st === "dark"
                  then {["dark"]} ∪ classList h
                  else classList h ∖ {["dark"]};
     prefersDark := prefersDark h |}.

(** [setTheme((prev) => (prev === 'light' ? 'dark' : 'light'))] *)
Definition toggleTheme (st : AppState) : AppState :=
  {| selectedDocId := selectedDocId st;
     query := query st;
     theme := if theme st === "light" then "dark" else "light" |}.

(** A click on the theme button: the state change, then the theme effect
    of the render that follows. *)
Definition clickTheme (sh : AppState * Host) : AppState * Host :=
  let st := toggleTheme (fst sh) in (st, applyTheme st (snd sh)).

Section App.

Variable docs : list DocPage.

(** The [filteredDocs] memo. *)
Definition filteredDocs (query : string) : list DocPage :=
  let q := JS.toLowerCase (JS.trim query) in
  if q === "" then docs
  else List.filter
         (fun doc =>
            JS.includes (JS.toLowerCase (title doc)) q
            || JS.includes (JS.toLowerCase (description doc)) q)
         docs.

(** The selection effect. *)
Definition repairSelection (st : AppState) : Eff AppState :=
  let filtered := filteredDocs (query st) in
  if length filtered =? 0 then ret st
  else
    let stillVisible :=
      existsb (fun doc => id doc === selectedDocId st) filtered in
    if negb stillVisible then
      let* first := arrayGet filtered 0 in
      let* firstId := prop id first in
      ret {| selectedDocId := firstId; query := query st; theme := theme st |}
    else ret st.

(** [docs.find((doc) => doc.id === selectedDocId) ?? docs[0]] *)
Definition activeDoc (st : AppState) : Eff (option DocPage) :=
  match findById docs (selectedDocId st) with
  | Some doc => ret (Some doc)
  | None => arrayGet docs 0
  end.

(** [activeDoc.content], the text handed to the markdown renderer. *)
Definition article (st : AppState) : Eff string :=
  let* active := activeDoc st in prop content active.

(** The first render and its effects: the three cells are initialized
    ([useState(docs[0].id)], [useState('')], the theme initializer), the
    article is rendered, then both effects run. *)
Definition mount (h : Host) : Eff (AppState * Host) :=
  let* first := arrayGet docs 0 in
  let* firstId := prop id first in
  let st := {| selectedDocId := firstId; query := ""; theme := initialTheme h |} in
  let* _ := article st in
  let* st' := repairSelection st in
  ret (st', applyTheme st' h).

(** A keystroke in the search box: [setQuery(event.target.value)] stores
    the text as typed, then the selection effect of the render that
    follows runs.  React skips the effect when neither dependency changed;
    in a state the effect has settled that makes no difference. *)
Definition setQuery (text : string) (st : AppState) : Eff AppState :=
  repairSelection
    {| selectedDocId := selectedDocId st; query := text; theme := theme st |}.

End App.

(** ** Vocabulary of the statements *)

(** A code unit the URL parser stores as written. *)
Definition verbatim (c : ascii) : bool :=
  negb (isTabOrNewline c) && negb (inFragmentSet c).

(** A string the browser keeps unchanged when it is assigned as (part of)
    a fragment. *)
Definition fragmentSafe (s : string) : bool := JS.every verbatim s.

(** A registry whose ids can all be addressed: none is empty and each is
    stored as written in a fragment. *)
Definition routable (docs : list DocPage) : bool :=
  forallb (fun d => negb (id d === "") && fragmentSafe (id d)) docs.

(** [text] contains [q], letter case apart. *)
Definition containsIgnoringCase (text q : string) : bool :=
  JS.includes (JS.toLowerCase text) (JS.toLowerCase q).

(** [navigate(Landing)] read as an operation that replaces the current
    history entry: the fragment and the query are gone, the entries before
    the current one are the same as before, no event is queued and the
    route is the landing route. *)
Definition landingReplacesEntry (st : Router) : Prop :=
  let st' := navigate Landing st in
  location (window st') =
    {| pathname := pathname (location (window st)); search := ""; hash := "" |}
  /\ history (window st') = history (window st)
  /\ hashchange (window st') = hashchange (window st)
  /\ route st' = Landing.

(** A window showing the page at [/] with the given [hash], with no
    earlier entry and no event queued. *)
Definition freshWindow (h : string) : Window :=
  {| location := {| pathname := "/"; search := ""; hash := h |};
     history := [];
     hashchange := 0 |}.

(** A [?raw] import that yields empty texts. *)
Definition noText : string -> string := fun _ => "".

(** The filter read as "every record shown contains the query as typed". *)
Definition filterContainsQuery (docs : list DocPage) (q : string) : Prop :=
  forall d, In d (filteredDocs docs q) ->
    containsIgnoringCase (title d) q = true
    \/ containsIgnoringCase (description d) q = true.

(** The same host with another answer of the system preference probe. *)
Definition withPreference (dark : bool) (h : Host) : Host :=
  {| localStorage := localStorage h;
     classList := classList h;
     prefersDark := dark |}.

(** The theme initializer read as "a stored value, whatever it is, keeps
    the probe out": with any value under the key, the initial theme does
    not depend on the probe's answer. *)
Definition probeUnusedWhenStored (h : Host) : Prop :=
  is_Some (localStorage h !! "theme") ->
  initialTheme (withPreference true h) = initialTheme (withPreference false h).

(** ** What the component renders, and a session of user actions *)

(** [arr.map(f)], where [f] may throw. *)
Fixpoint mapEff {A B} (f : A -> Eff B) (arr : list A) : Eff (list B) :=
  match arr with
  | [] => ret []
  | a :: rest =>
      let* b := f a in
      let* bs := mapEff f rest in
      ret (b :: bs)
  end.

(** One button of the sidebar: the record it shows, and whether it
    carries the class [nav__item--active]. *)
Record NavItem := {
  item : DocPage;
  highlighted : bool;
}.

(** The parts of the rendered tree that depend on the state: the
    [empty-state] paragraph, the buttons of the sidebar, the label of the
    theme button ([aria-label] and [title]), its icon (the moon for the
    light theme, the sun otherwise) and the text given to the markdown
    renderer.  The build number comes from a module outside these
    sources and is left out. *)
Record View := {
  emptyState : bool;
  navItems : list NavItem;
  themeLabel : string;
  moonIcon : bool;
  markdown : string;
}.

(** What the user does: a keystroke in the search box that leaves [text]
    in it, a click on the [i]-th button of the sidebar, a click on the
    theme button. *)
Inductive Action :=
| TypeQuery (text : string)
| ClickItem (i : nat)
| ClickThemeButton.

Section Session.

Variable docs : list DocPage.

(** One call of [App] after the first: the argument of
    [useState(docs[0].id)] is evaluated (and ignored), [activeDoc] is
    computed, then the tree is built top down. *)
Definition render (st : AppState) : Eff View :=
  let* first := arrayGet docs 0 in
  let* _ := prop id first in
  let filtered := filteredDocs docs (query st) in
  let* active := activeDoc docs st in
  let* items :=
    mapEff (fun doc =>
              let* activeId := prop id active in
              ret {| item := doc; highlighted := id doc === activeId |})
           filtered in
  let* text := prop content active in
  ret {| emptyState := length filtered =? 0;
         navItems := items;
         themeLabel :=
           "Switch to " +:+ (if theme st === "light" then "dark" else "light")
                        +:+ " mode";
         moonIcon := theme st === "light";
         markdown := text |}.

(** [onClick={() => setSelectedDocId(doc.id)}] of the button of [doc],
    then the selection effect of the render that follows. *)
Definition selectDoc (doc : DocPage) (st : AppState) : Eff AppState :=
  repairSelection docs
    {| selectedDocId := id doc; query := query st; theme := theme st |}.

(** One action: the state is set, the component renders, the effects run
    and the component renders what they left.  A click on a button that
    is not there is no action at all. *)
Definition act (a : Action) (sh : AppState * Host) : Eff (AppState * Host) :=
  let (st, h) := sh in
  match a with
  | TypeQuery text =>
      let* _ := render {| selectedDocId := selectedDocId st;
                          query := text;
                          theme := theme st |} in
      let* st' := setQuery docs text st in
      let* _ := render st' in
      ret (st', h)
  | ClickItem i =>
      match filteredDocs docs (query st) !! i with
      | Some doc =>
          let* _ := render {| selectedDocId := id doc;
                              query := query st;
                              theme := theme st |} in
          let* st' := selectDoc doc st in
          let* _ := render st' in
          ret (st', h)
      | None => ret sh
      end
  | ClickThemeButton =>
      let* _ := render (toggleTheme st) in
      ret (clickTheme sh)
  end.

(** The actions of a session, one after the other. *)
Fixpoint session (actions : list Action) (sh : AppState * Host)
  : Eff (AppState * Host) :=
  match actions with
  | [] => ret sh
  | a :: rest => let* sh' := act a sh in session rest sh'
  end.

(** The page is opened, then used. *)
Definition visit (h : Host) (actions : list Action) : Eff (AppState * Host) :=
  let* sh := mount docs h in session actions sh.

(** The selection is a registry id, and it is among the records shown
    unless none is shown. *)
Definition settled (st : AppState) : Prop :=
  In (selectedDocId st) (ids docs)
  /\ (filteredDocs docs (query st) = []
      \/ In (selectedDocId st) (ids (filteredDocs docs (query st)))).

End Session.

(** The theme in memory is the one stored, it is not the empty string,
    and the root element carries the class [dark] exactly for the dark
    theme. *)
Definition themeInSync (sh : AppState * Host) : Prop :=
  localStorage (snd sh) !! "theme" = Some (theme (fst sh))
  /\ theme (fst sh) <> ""
  /\ ("dark" ∈ classList (snd sh) <-> theme (fst sh) = "dark").

(** [q1] starts [q2]. *)
Definition isPrefix (q1 q2 : string) : Prop := exists rest, q2 = q1 +:+ rest.

(** The read of [docs[0]] that every call of [App] makes for the argument
    of [useState]. *)
Definition firstRecordRead (docs : list DocPage) : IndexRead :=
  {| arrayLength := length docs; readIndex := 0 |}.

Section RouterVocabulary.

Variable docs : list DocPage.

(** The state a parse leaves: route and window of its result. *)
Definition parsed (w : Window) : Router :=
  {| window := snd (parseHash docs w); route := fst (parseHash docs w) |}.

(** With no event queued, the route is the one the fragment reads as. *)
Definition inSync (st : Router) : Prop :=
  hashchange (window st) = 0 -> route st = fst (parseHash docs (window st)).

End RouterVocabulary.

(** * Properties *)

(** ** Strings *)

Lemma eqb_true (a b : string) : (a === b) = true <-> a = b.
Proof. apply String.eqb_eq. Qed.

Lemma eqb_false (a b : string) : (a === b) = false <-> a <> b.
Proof. apply String.eqb_neq. Qed.

Lemma startsWith_app (p s : string) : JS.startsWith (p +:+ s) p = true.
Proof.
  induction p as [|c p IH]; simpl; [reflexivity|].
  rewrite Ascii.eqb_refl. exact IH.
Qed.

Lemma slice_app (p s : string) : JS.slice (String.length p) (p +:+ s) = s.
Proof. induction p as [|c p IH]; simpl; [destruct s; reflexivity | exact IH]. Qed.

Lemma startsWith_split (s p : string) :
  JS.startsWith s p = true -> s = p +:+ JS.slice (String.length p) s.
Proof.
  revert s. induction p as [|b p IH]; intros s H; simpl in *.
  - destruct s; reflexivity.
  - destruct s as [|a s]; [discriminate|].
    apply andb_true_iff in H as [Hab Hs].
    apply Ascii.eqb_eq in Hab. subst b. simpl. f_equal. apply IH, Hs.
Qed.

Lemma replace_at_start (s pat rep : string) :
  JS.startsWith s pat = true ->
  JS.replace s pat rep = rep +:+ JS.slice (String.length pat) s.
Proof. intros H. destruct s; simpl; rewrite H; reflexivity. Qed.

Lemma includes_empty (s : string) : JS.includes s "" = true.
Proof. destruct s; reflexivity. Qed.

Lemma matchCanonical_Some (h seg : string) :
  JS.matchCanonical h = Some seg <->
  h = "#/" +:+ seg /\ seg <> "" /\
  JS.every (fun c => negb (JS.isLineTerminator c)) seg = true.
Proof.
  unfold JS.matchCanonical. split.
  - destruct (JS.startsWith h "#/") eqn:Hp; [|discriminate].
    apply startsWith_split in Hp. simpl String.length in Hp.
    destruct (negb (JS.slice 2 h === "") && _) eqn:Hc; [|discriminate].
    intros [= <-]. apply andb_true_iff in Hc as [Hne Hev].
    apply negb_true_iff, eqb_false in Hne. auto.
  - intros (-> & Hne & Hev).
    change (JS.startsWith ("#/" +:+ seg) "#/") with true.
    change (JS.slice 2 ("#/" +:+ seg)) with seg.
    apply eqb_false in Hne. rewrite Hne, Hev. reflexivity.
Qed.

(** ** Registry lookup *)

Lemma findById_Some (docs : list DocPage) (docId : string) (d : DocPage) :
  findById docs docId = Some d -> In d docs /\ id d = docId.
Proof.
  unfold findById. intros H. apply List.find_some in H as [Hin Heq].
  apply eqb_true in Heq. auto.
Qed.

Lemma findById_None (docs : list DocPage) (docId : string) :
  findById docs docId = None <-> ~ In docId (ids docs).
Proof.
  unfold findById, ids. split.
  - intros H Hin. apply in_map_iff in Hin as (d & Hid & Hd).
    pose proof (List.find_none _ _ H d Hd) as Hne. simpl in Hne.
    apply eqb_false in Hne. contradiction.
  - intros Hnot. destruct (List.find _ docs) as [d|] eqn:Hf; [|reflexivity].
    apply List.find_some in Hf as [Hin Heq]. apply eqb_true in Heq.
    exfalso. apply Hnot. apply in_map_iff. eauto.
Qed.

Lemma findById_In (docs : list DocPage) (docId : string) :
  In docId (ids docs) -> exists d, findById docs docId = Some d.
Proof.
  intros Hin. destruct (findById docs docId) as [d|] eqn:Hf; [eauto|].
  apply findById_None in Hf. contradiction.
Qed.

(** ** Route resolution *)

Section RoutingFacts.

Variable docs : list DocPage.

Lemma parseHash_landing_forms (w : Window) :
  hash (location w) = "" \/ hash (location w) = "#" \/ hash (location w) = "#/" ->
  parseHash docs w = (Landing, w).
Proof.
  unfold parseHash. intros [-> | [-> | ->]]; reflexivity.
Qed.

(** The legacy form of a registered id: the route is the document and the
    fragment is reassigned. *)
Lemma parseHash_legacy_known (w : Window) (v : string) :
  hash (location w) = "#doc-" +:+ v ->
  In v (ids docs) ->
  parseHash docs w = (Doc v, setHash ("#/" +:+ v) w).
Proof.
  intros Hh Hin. destruct (findById_In _ _ Hin) as [d Hd].
  unfold parseHash. rewrite Hh.
  rewrite (replace_at_start _ "#doc-" "" (startsWith_app "#doc-" v)).
  rewrite (slice_app "#doc-" v). simpl. rewrite Hd. reflexivity.
Qed.

(** The legacy form of anything else: the landing route, nothing written. *)
Lemma parseHash_legacy_unknown (w : Window) (x : string) :
  hash (location w) = "#doc-" +:+ x ->
  ~ In x (ids docs) ->
  parseHash docs w = (Landing, w).
Proof.
  intros Hh Hnot. apply findById_None in Hnot.
  unfold parseHash. rewrite Hh.
  rewrite (replace_at_start _ "#doc-" "" (startsWith_app "#doc-" x)).
  rewrite (slice_app "#doc-" x). simpl. rewrite Hnot. reflexivity.
Qed.

(** The canonical form: the route is decided by the lookup alone. *)
Lemma parseHash_canonical (w : Window) (seg : string) :
  JS.matchCanonical (hash (location w)) = Some seg ->
  parseHash docs w =
    (match findById docs seg with Some _ => Doc seg | None => Landing end, w).
Proof.
  intros Hm. pose proof Hm as (Hh & Hne & _)%matchCanonical_Some.
  unfold parseHash. rewrite Hm, Hh.
  destruct seg as [|c seg]; [congruence|]. simpl.
  destruct (findById docs (String c seg)); reflexivity.
Qed.

Lemma parseHash_slash_unknown (w : Window) (seg : string) :
  hash (location w) = "#/" +:+ seg ->
  ~ In seg (ids docs) ->
  parseHash docs w = (Landing, w).
Proof.
  intros Hh Hnot.
  destruct (JS.matchCanonical (hash (location w))) as [seg'|] eqn:Hm.
  - rewrite (parseHash_canonical _ _ Hm).
    apply matchCanonical_Some in Hm as (Hh' & _). rewrite Hh in Hh'.
    simpl in Hh'. injection Hh' as <-.
    apply findById_None in Hnot. rewrite Hnot. reflexivity.
  - unfold parseHash. rewrite Hm, Hh.
    destruct seg; reflexivity.
Qed.

(** Every outcome of [parseHash]: the landing route with the window
    untouched, a redirected legacy fragment, or a canonical fragment. *)
Lemma parseHash_cases (w : Window) :
  parseHash docs w = (Landing, w)
  \/ (exists v, In v (ids docs)
        /\ hash (location w) = "#doc-" +:+ v
        /\ parseHash docs w = (Doc v, setHash ("#/" +:+ v) w))
  \/ (exists v, In v (ids docs)
        /\ hash (location w) = "#/" +:+ v
        /\ parseHash docs w = (Doc v, w)).
Proof.
  destruct (JS.startsWith (hash (location w)) "#doc-") eqn:Hleg.
  - apply startsWith_split in Hleg. simpl String.length in Hleg.
    set (x := JS.slice 5 (hash (location w))) in *.
    destruct (findById docs x) as [d|] eqn:Hx.
    + right; left. exists x. apply findById_Some in Hx as [Hin Hid].
      assert (In x (ids docs)) by (apply in_map_iff; eauto).
      auto using parseHash_legacy_known.
    + left. apply findById_None in Hx. eauto using parseHash_legacy_unknown.
  - destruct (JS.matchCanonical (hash (location w))) as [seg|] eqn:Hm.
    + rewrite (parseHash_canonical _ _ Hm).
      destruct (findById docs seg) as [d|] eqn:Hs; [|auto].
      right; right. exists seg. apply findById_Some in Hs as [Hin Hid].
      apply matchCanonical_Some in Hm as (Hh & _).
      split; [apply in_map_iff; eauto | auto].
    + left. unfold parseHash. rewrite Hm, Hleg.
      destruct (_ || _); reflexivity.
Qed.

Lemma parseHash_valid (w : Window) : validRoute docs (fst (parseHash docs w)).
Proof.
  destruct (parseHash_cases w) as [-> | [(v & Hin & _ & ->) | (v & Hin & _ & ->)]];
    simpl; auto.
  all: apply in_map_iff in Hin as (d & Hid & Hd); eauto.
Qed.

Lemma parseHash_Doc_inv (w : Window) (v : string) :
  fst (parseHash docs w) = Doc v ->
  In v (ids docs)
  /\ (hash (location w) = "#/" +:+ v \/ hash (location w) = "#doc-" +:+ v).
Proof.
  destruct (parseHash_cases w) as [-> | [(x & Hin & Hh & ->) | (x & Hin & Hh & ->)]];
    simpl; [discriminate | |]; intros [= <-]; auto.
Qed.

Lemma deliver_valid (st : Router) :
  validRoute docs (route st) -> validRoute docs (route (deliver docs st)).
Proof.
  intros Hv. unfold deliver. destruct (hashchange (window st)); [exact Hv|].
  unfold handleHashChange. simpl.
  match goal with |- context [parseHash docs ?w] =>
    pose proof (parseHash_valid w) as Hp; destruct (parseHash docs w) end.
  exact Hp.
Qed.

Lemma step_valid (st : Router) (e : Event) :
  validRoute docs (route st) -> validRoute docs (route (step docs st e)).
Proof.
  intros Hv. destruct e as [[|docId] | h | |]; simpl; auto using deliver_valid.
  destruct (pushState _ _); simpl; auto.
Qed.

Lemma run_valid (events : list Event) (st : Router) :
  validRoute docs (route st) -> validRoute docs (route (run docs events st)).
Proof.
  revert st. induction events as [|e events IH]; intros st Hv; simpl; [exact Hv|].
  apply IH, step_valid, Hv.
Qed.

Lemma useHashRouter_valid (w : Window) :
  validRoute docs (route (useHashRouter docs w)).
Proof.
  unfold useHashRouter. pose proof (parseHash_valid w) as Hp.
  destruct (parseHash docs w). exact Hp.
Qed.

End RoutingFacts.

(** ** What the browser stores *)

Lemma verbatim_encode (c : ascii) :
  verbatim c = true -> encodeFragmentChar c = String c "".
Proof.
  unfold verbatim, encodeFragmentChar. intros H.
  apply andb_true_iff in H as [Ht Hf].
  apply negb_true_iff in Ht. rewrite Ht, Hf. reflexivity.
Qed.

Lemma verbatim_not_terminator (c : ascii) :
  verbatim c = true -> negb (JS.isLineTerminator c) = true.
Proof.
  destruct c as [[|] [|] [|] [|] [|] [|] [|] [|]];
    solve [reflexivity | discriminate].
Qed.

Lemma fragmentSafe_encode (s : string) :
  fragmentSafe s = true -> encodeFragment s = s.
Proof.
  unfold fragmentSafe. induction s as [|c s IH]; simpl; [reflexivity|].
  intros H. apply andb_true_iff in H as [Hc Hs].
  rewrite (verbatim_encode _ Hc), (IH Hs). reflexivity.
Qed.

Lemma fragmentSafe_no_terminator (s : string) :
  fragmentSafe s = true ->
  JS.every (fun c => negb (JS.isLineTerminator c)) s = true.
Proof.
  unfold fragmentSafe. induction s as [|c s IH]; simpl; [reflexivity|].
  intros H. apply andb_true_iff in H as [Hc Hs].
  rewrite (verbatim_not_terminator _ Hc), (IH Hs). reflexivity.
Qed.

(** Assigning the canonical fragment of a safe id: the fragment is stored
    as written; the window changes, and an event is queued, exactly when
    the fragment was another one. *)
Lemma setHash_canonical (v : string) (w : Window) :
  fragmentSafe v = true ->
  setHash ("#/" +:+ v) w =
    if "#/" +:+ v === hash (location w) then w
    else {| location := {| pathname := pathname (location w);
                           search := search (location w);
                           hash := "#/" +:+ v |};
            history := location w :: history w;
            hashchange := S (hashchange w) |}.
Proof.
  intros Hs. unfold setHash. simpl.
  change (encodeFragmentChar "/") with "/". simpl.
  rewrite (fragmentSafe_encode _ Hs). reflexivity.
Qed.

Lemma routable_id (docs : list DocPage) (v : string) :
  routable docs = true -> In v (ids docs) ->
  v <> "" /\ fragmentSafe v = true.
Proof.
  unfold routable, ids. intros Hr Hin.
  apply in_map_iff in Hin as (d & <- & Hd).
  rewrite forallb_forall in Hr. specialize (Hr d Hd).
  apply andb_true_iff in Hr as [Hne Hs].
  apply negb_true_iff, eqb_false in Hne. auto.
Qed.

Lemma routable_matchCanonical (docs : list DocPage) (v : string) :
  routable docs = true -> In v (ids docs) ->
  JS.matchCanonical ("#/" +:+ v) = Some v.
Proof.
  intros Hr Hin. destruct (routable_id _ _ Hr Hin) as [Hne Hs].
  apply matchCanonical_Some. auto using fragmentSafe_no_terminator.
Qed.

Example docs_routable (raw : string -> string) :
  routable (Content.docs raw) = true.
Proof. reflexivity. Qed.

Example docs_first_edition_routable (raw : string -> string) :
  routable (Content.docs_first_edition raw) = true.
Proof. reflexivity. Qed.

(** ** The router's contract *)

(** C1. Route validity invariant: whatever the initial window and whatever
    sequence of [navigate] calls, fragment changes, Back steps and
    delivered [hashchange] events follows, the route of the router is
    [Landing] or [Doc docId] with [docId] the id of a registry record;
    [parseHash] never builds a [Doc] route with an id that is absent from
    the registry; and a fragment, canonical or legacy, whose identifier is
    not in the registry resolves to [Landing] (and writes nothing). *)
Theorem route_validity_invariant (docs : list DocPage) :
  (forall (w : Window) (events : list Event),
      validRoute docs (route (run docs events (useHashRouter docs w))))
  /\ (forall (w : Window) (v : string),
         fst (parseHash docs w) = Doc v -> In v (ids docs))
  /\ (forall (w : Window) (x : string),
         ~ In x (ids docs) ->
         hash (location w) = "#/" +:+ x \/ hash (location w) = "#doc-" +:+ x ->
         parseHash docs w = (Landing, w)).
Proof.
  split; [|split].
  - intros w events. apply run_valid, useHashRouter_valid.
  - intros w v H. apply (parseHash_Doc_inv docs w v H).
  - intros w x Hnot [Hh | Hh].
    + eapply parseHash_slash_unknown; eauto.
    + eapply parseHash_legacy_unknown; eauto.
Qed.

(** The invariant at work: a session that starts on a stale link, asks
    for a page that does not exist, then for one that does, follows a dead
    link and goes back. *)
Example route_validity_session :
  let events := [Navigate (Doc "no-such-page"); HashChange;
                 Navigate (Doc "tutorial"); HashChange;
                 Follow "#/gone"; HashChange; Back; HashChange] in
  let st := run (Content.docs noText) events
                (useHashRouter (Content.docs noText) (freshWindow "#/stale")) in
  validRoute (Content.docs noText) (route st) /\ route st = Doc "tutorial".
Proof.
  cbv zeta. split; [|reflexivity].
  destruct (route_validity_invariant (Content.docs noText)) as (G & _).
  apply G.
Defined.

(** C2. Fragment parsing, for every window and its fragment [h]:
    [parseHash] returns [Landing] when [h] is empty, [#] or [#/]; returns
    [Doc seg] when [h] has the canonical form ([#/] and a segment of one
    or more code units without a line terminator, as the pattern reads)
    and [seg] is a registry id; returns [Landing] when [h] is [#/] and a
    segment that is no registry id; and returns [Landing] for every other
    fragment that is malformed, that is neither the canonical nor the
    legacy form of a registry id.  For the registry of the book the
    canonical form of every id is [#/] followed by the id. *)
Theorem parseHash_fragment_grammar (docs : list DocPage) (w : Window) :
  let h := hash (location w) in
  (h = "" \/ h = "#" \/ h = "#/" -> fst (parseHash docs w) = Landing)
  /\ (forall seg, JS.matchCanonical h = Some seg -> In seg (ids docs) ->
        fst (parseHash docs w) = Doc seg)
  /\ (forall seg, h = "#/" +:+ seg -> ~ In seg (ids docs) ->
        fst (parseHash docs w) = Landing)
  /\ ((forall v, In v (ids docs) -> h <> "#/" +:+ v /\ h <> "#doc-" +:+ v) ->
        fst (parseHash docs w) = Landing)
  /\ (forall raw v, In v (ids (Content.docs raw)) -> h = "#/" +:+ v ->
        fst (parseHash (Content.docs raw) w) = Doc v).
Proof.
  cbv zeta. repeat split.
  - intros H. rewrite (parseHash_landing_forms docs w H). reflexivity.
  - intros seg Hm Hin. rewrite (parseHash_canonical docs w seg Hm).
    destruct (findById_In _ _ Hin) as [d ->]. reflexivity.
  - intros seg Hh Hnot. rewrite (parseHash_slash_unknown docs w seg Hh Hnot).
    reflexivity.
  - intros Hother. destruct (fst (parseHash docs w)) as [|v] eqn:Hr; [reflexivity|].
    apply parseHash_Doc_inv in Hr as [Hin [Hh | Hh]];
      destruct (Hother v Hin); contradiction.
  - intros raw v Hin Hh.
    pose proof (routable_matchCanonical _ v (docs_routable raw) Hin) as Hm.
    rewrite <- Hh in Hm. rewrite (parseHash_canonical _ w v Hm).
    destruct (findById_In _ _ Hin) as [d ->]. reflexivity.
Qed.

(** The grammar on the fragments of the specification's examples. *)
Example parseHash_fragment_grammar_witness :
  fst (parseHash (Content.docs noText) (freshWindow "#/tutorial")) = Doc "tutorial"
  /\ fst (parseHash (Content.docs noText) (freshWindow "#/does-not-exist")) = Landing
  /\ fst (parseHash (Content.docs noText) (freshWindow "#tutorial")) = Landing.
Proof.
  split; [|split].
  - destruct (parseHash_fragment_grammar (Content.docs noText)
                (freshWindow "#/tutorial")) as (_ & G & _).
    apply G; [reflexivity | simpl; tauto].
  - destruct (parseHash_fragment_grammar (Content.docs noText)
                (freshWindow "#/does-not-exist")) as (_ & _ & G & _).
    apply (G "does-not-exist"); [reflexivity|].
    simpl. intuition discriminate.
  - destruct (parseHash_fragment_grammar (Content.docs noText)
                (freshWindow "#tutorial")) as (_ & _ & _ & G & _).
    apply G. intros v Hin. split; simpl; destruct v; discriminate.
Defined.

(** ** The legacy redirect *)

(** The canonical form never reads as a legacy fragment. *)
Lemma canonical_not_legacy (x : string) : JS.startsWith ("#/" +:+ x) "#doc-" = false.
Proof. reflexivity. Qed.

Section LegacyRedirect.

Variable docs : list DocPage.
Hypothesis Hroutable : routable docs = true.

Lemma redirect_stores_canonical (w : Window) (v : string) :
  In v (ids docs) ->
  hash (location w) = "#doc-" +:+ v ->
  setHash ("#/" +:+ v) w =
    {| location := {| pathname := pathname (location w);
                      search := search (location w);
                      hash := "#/" +:+ v |};
       history := location w :: history w;
       hashchange := S (hashchange w) |}.
Proof.
  intros Hin Hh. destruct (routable_id _ _ Hroutable Hin) as [_ Hs].
  rewrite (setHash_canonical _ _ Hs), Hh. reflexivity.
Qed.

Lemma parseHash_canonical_known (w : Window) (v : string) :
  In v (ids docs) ->
  hash (location w) = "#/" +:+ v ->
  parseHash docs w = (Doc v, w).
Proof.
  intros Hin Hh.
  pose proof (routable_matchCanonical _ _ Hroutable Hin) as Hm.
  rewrite <- Hh in Hm. rewrite (parseHash_canonical _ _ _ Hm).
  destruct (findById_In _ _ Hin) as [d ->]. reflexivity.
Qed.

Lemma redirect_then_reparse (w : Window) (v : string) :
  In v (ids docs) ->
  hash (location w) = "#doc-" +:+ v ->
  let w' := snd (parseHash docs w) in
  parseHash docs w = (Doc v, w')
  /\ hash (location w') = "#/" +:+ v
  /\ hashchange w' = S (hashchange w)
  /\ parseHash docs w' = (Doc v, w').
Proof.
  intros Hin Hh. cbv zeta. rewrite (parseHash_legacy_known _ _ _ Hh Hin).
  rewrite (redirect_stores_canonical _ _ Hin Hh). cbn [snd location hash hashchange].
  repeat split. apply parseHash_canonical_known; [exact Hin | reflexivity].
Qed.

(** The listener's view: the event queued by the redirect is delivered,
    the route stays what it was and nothing more is queued. *)
Lemma redirect_event_settles (st : Router) (v : string) :
  In v (ids docs) ->
  hash (location (window st)) = "#doc-" +:+ v ->
  hashchange (window st) = 0 ->
  let st1 := handleHashChange docs st in
  let st2 := deliver docs st1 in
  route st1 = Doc v /\ route st2 = Doc v
  /\ location (window st2) = location (window st1)
  /\ hashchange (window st2) = 0
  /\ deliver docs st2 = st2.
Proof.
  intros Hin Hh H0. cbv zeta. unfold handleHashChange.
  rewrite (parseHash_legacy_known _ _ _ Hh Hin).
  rewrite (redirect_stores_canonical _ _ Hin Hh), H0.
  match goal with |- context [deliver docs ?s] =>
    assert (deliver docs s =
            {| window := {| location := location (window s);
                            history := history (window s);
                            hashchange := 0 |};
               route := Doc v |}) as ->
  end.
  { unfold deliver, handleHashChange. cbn [window hashchange location history route].
    rewrite parseHash_canonical_known with (v := v); [|exact Hin|reflexivity].
    reflexivity. }
  repeat split.
Qed.

End LegacyRedirect.

(** C3. Legacy rewrite fixpoint, for the registry of the book: for every
    registry id [v], parsing the fragment [#doc-v] resolves to [Doc v] and
    rewrites the fragment to the canonical [#/v] (queueing one
    [hashchange] event); parsing the resulting fragment again yields
    [Doc v] and leaves the window as it is, so there is no further
    rewrite; no canonical fragment matches the legacy pattern; and for
    every string [x] that is no registry id, [#doc-x] resolves to
    [Landing] and the window is left as it is. *)
Theorem legacy_rewrite_fixpoint (raw : string -> string) :
  let docs := Content.docs raw in
  (forall (v : string) (w : Window),
      In v (ids docs) ->
      hash (location w) = "#doc-" +:+ v ->
      let w' := snd (parseHash docs w) in
      parseHash docs w = (Doc v, w')
      /\ hash (location w') = "#/" +:+ v
      /\ hashchange w' = S (hashchange w)
      /\ parseHash docs w' = (Doc v, w'))
  /\ (forall x : string, JS.startsWith ("#/" +:+ x) "#doc-" = false)
  /\ (forall (x : string) (w : Window),
         ~ In x (ids docs) ->
         hash (location w) = "#doc-" +:+ x ->
         parseHash docs w = (Landing, w)).
Proof.
  cbv zeta. split; [|split].
  - intros v w Hin Hh.
    apply (redirect_then_reparse _ (docs_routable raw) w v Hin Hh).
  - exact canonical_not_legacy.
  - intros x w Hnot Hh. eapply parseHash_legacy_unknown; eauto.
Qed.

(** The redirect of the specification's example, [#doc-introduction]. *)
Example legacy_rewrite_fixpoint_witness :
  let w := freshWindow "#doc-introduction" in
  let w' := snd (parseHash (Content.docs noText) w) in
  parseHash (Content.docs noText) w = (Doc "introduction", w')
  /\ hash (location w') = "#/introduction"
  /\ hashchange w' = 1
  /\ parseHash (Content.docs noText) w' = (Doc "introduction", w').
Proof.
  destruct (legacy_rewrite_fixpoint noText) as (G & _).
  apply (G "introduction" (freshWindow "#doc-introduction")).
  - simpl. tauto.
  - reflexivity.
Defined.

(** ** Navigation commands *)

(** C4, as amended. On a page whose path does not begin with two
    slashes, [navigate Landing] makes the URL the bare path (no query, no
    fragment) by pushing a new history entry: the entry that was current
    stays in the session history, right before the new one, and Back
    returns to it.  The operation queues no [hashchange] event, so with
    none pending the listener has nothing to run, and the route is set to
    [Landing] at once. *)
Theorem navigate_landing_pushes (docs : list DocPage) (st : Router) :
  JS.startsWith (pathname (location (window st))) "//" = false ->
  let st' := navigate Landing st in
  location (window st') =
    {| pathname := pathname (location (window st)); search := ""; hash := "" |}
  /\ hash (location (window st')) = ""
  /\ history (window st') = location (window st) :: history (window st)
  /\ location (back (window st')) = location (window st)
  /\ hashchange (window st') = hashchange (window st)
  /\ (hashchange (window st) = 0 -> deliver docs st' = st')
  /\ route st' = Landing.
Proof.
  intros Hpath. cbv zeta. unfold navigate, pushState. rewrite Hpath.
  simpl. repeat split.
  intros H0. unfold deliver. simpl. rewrite H0. reflexivity.
Qed.

(** C4, as stated, fails: leaving the tutorial for the landing page does
    not replace the current history entry, it adds one. *)
Lemma navigate_landing_does_not_replace :
  ~ landingReplacesEntry
      {| window := freshWindow "#/tutorial"; route := Doc "tutorial" |}.
Proof.
  unfold landingReplacesEntry. simpl. intros (_ & H & _). discriminate H.
Qed.

(** Specification example 6: from the tutorial to the landing page. *)
Example navigate_landing_from_tutorial :
  let st' := navigate Landing
               {| window := freshWindow "#/tutorial"; route := Doc "tutorial" |} in
  hash (location (window st')) = "" /\ route st' = Landing
  /\ hash (location (back (window st'))) = "#/tutorial".
Proof.
  destruct (navigate_landing_pushes []
              {| window := freshWindow "#/tutorial"; route := Doc "tutorial" |}
              eq_refl)
    as (_ & Hh & _ & Hb & _ & _ & Hr).
  cbv zeta. rewrite Hb. auto.
Defined.

(** ** Search *)

Section AppFacts.

Variable docs : list DocPage.

Lemma filteredDocs_blank (q : string) :
  JS.toLowerCase (JS.trim q) = "" -> filteredDocs docs q = docs.
Proof. unfold filteredDocs. intros ->. reflexivity. Qed.

Lemma filteredDocs_In (q : string) (d : DocPage) :
  In d (filteredDocs docs q) <->
  In d docs
  /\ (JS.toLowerCase (JS.trim q) = ""
      \/ JS.includes (JS.toLowerCase (title d)) (JS.toLowerCase (JS.trim q)) = true
      \/ JS.includes (JS.toLowerCase (description d)) (JS.toLowerCase (JS.trim q)) = true).
Proof.
  unfold filteredDocs.
  destruct (JS.toLowerCase (JS.trim q) === "") eqn:He.
  - apply eqb_true in He. rewrite He. tauto.
  - apply eqb_false in He. rewrite filter_In, orb_true_iff. tauto.
Qed.

Lemma filter_sublist {A} (p : A -> bool) (l : list A) : sublist (List.filter p l) l.
Proof.
  induction l as [|a l IH]; simpl; [constructor|].
  destruct (p a); constructor; exact IH.
Qed.

Lemma filteredDocs_sublist (q : string) : sublist (filteredDocs docs q) docs.
Proof.
  unfold filteredDocs. destruct (_ === ""); [reflexivity | apply filter_sublist].
Qed.

(** ** The selection effect *)

Lemma stillVisible_In (l : list DocPage) (sel : string) :
  existsb (fun doc => id doc === sel) l = true <-> In sel (ids l).
Proof.
  unfold ids. rewrite existsb_exists, in_map_iff.
  split; intros (d & H1 & H2).
  - apply eqb_true in H2. eauto.
  - exists d. split; [exact H2 | apply eqb_true, H1].
Qed.

(** The effect, case by case. *)
Lemma repairSelection_unfold (st : AppState) :
  repairSelection docs st =
    match filteredDocs docs (query st) with
    | [] => ret st
    | d :: rest =>
        if existsb (fun doc => id doc === selectedDocId st) (d :: rest)
        then ret st
        else (Returned {| selectedDocId := id d;
                          query := query st;
                          theme := theme st |},
              [{| arrayLength := S (length rest); readIndex := 0 |}])
    end.
Proof.
  unfold repairSelection.
  destruct (filteredDocs docs (query st)) as [|d rest]; [reflexivity|].
  cbn [length Nat.eqb].
  destruct (existsb _ (d :: rest)); reflexivity.
Qed.

(** Running the effect on its own result changes nothing more. *)
Lemma repairSelection_settled (st st' : AppState) :
  fst (repairSelection docs st) = Returned st' ->
  repairSelection docs st' = ret st'.
Proof.
  rewrite (repairSelection_unfold st).
  destruct (filteredDocs docs (query st)) as [|d rest] eqn:Hf.
  - intros [= <-]. rewrite repairSelection_unfold, Hf. reflexivity.
  - destruct (existsb _ (d :: rest)) eqn:Hv; intros [= <-].
    + rewrite repairSelection_unfold, Hf, Hv. reflexivity.
    + rewrite repairSelection_unfold. cbn [query selectedDocId]. rewrite Hf.
      cbn [existsb]. rewrite String.eqb_refl. reflexivity.
Qed.

(** When the query changes but the filtered list does not, a settled
    state stays settled: skipping the effect, as React does when no
    dependency changed, and running it give the same state. *)
Lemma setQuery_same_list (text : string) (st : AppState) :
  repairSelection docs st = ret st ->
  filteredDocs docs text = filteredDocs docs (query st) ->
  setQuery docs text st =
    ret {| selectedDocId := selectedDocId st; query := text; theme := theme st |}.
Proof.
  unfold setQuery. rewrite !repairSelection_unfold. cbn [query selectedDocId].
  intros Hs ->. destruct (filteredDocs docs (query st)) as [|d rest]; [reflexivity|].
  destruct (existsb _ (d :: rest)); [reflexivity | discriminate Hs].
Qed.

End AppFacts.

(** C5, as amended. For every query [q]: every record of
    [filteredDocs q] contains the trimmed [q], letter case apart, in its
    title or its description; [filteredDocs q] is a subsequence of the
    registry, in registry order; [filteredDocs ""] is the whole registry;
    and a registry record is in [filteredDocs q] exactly when [q], trimmed
    and lower-cased, is empty or occurs in the lower-cased title or in the
    lower-cased description. *)
Theorem filter_correct (docs : list DocPage) (q : string) :
  (forall d, In d (filteredDocs docs q) ->
     containsIgnoringCase (title d) (JS.trim q) = true
     \/ containsIgnoringCase (description d) (JS.trim q) = true)
  /\ sublist (filteredDocs docs q) docs
  /\ filteredDocs docs "" = docs
  /\ (forall d, In d (filteredDocs docs q) <->
        In d docs
        /\ (JS.toLowerCase (JS.trim q) = ""
            \/ JS.includes (JS.toLowerCase (title d))
                           (JS.toLowerCase (JS.trim q)) = true
            \/ JS.includes (JS.toLowerCase (description d))
                           (JS.toLowerCase (JS.trim q)) = true)).
Proof.
  split; [|split; [|split]].
  - intros d Hd. apply filteredDocs_In in Hd as [_ [He | [Ht | Hs]]];
      unfold containsIgnoringCase; auto.
    left. rewrite He. apply includes_empty.
  - apply filteredDocs_sublist.
  - reflexivity.
  - apply filteredDocs_In.
Qed.

(** C5, as stated, fails on a query with a blank at its end: the tutorial
    is shown for ["tutorial "], and neither its title nor its description
    contains the query with the blank. *)
Lemma filter_ignores_outer_blanks :
  ~ filterContainsQuery (Content.docs noText) "tutorial ".
Proof.
  intros H.
  destruct (H {| id := "tutorial";
                 title := "Tutorial";
                 description := "Step-by-step guide to writing your first ruleblocks";
                 content := "" |}) as [Hc | Hc].
  - vm_compute. auto.
  - vm_compute in Hc. discriminate Hc.
  - vm_compute in Hc. discriminate Hc.
Qed.

(** The amended filter on the query of the counterexample. *)
Example filter_correct_witness :
  List.map id (filteredDocs (Content.docs noText) "tutorial ") = ["tutorial"]
  /\ forall d, In d (filteredDocs (Content.docs noText) "tutorial ") ->
       containsIgnoringCase (title d) "tutorial" = true
       \/ containsIgnoringCase (description d) "tutorial" = true.
Proof.
  split; [reflexivity|].
  destruct (filter_correct (Content.docs noText) "tutorial ") as (G & _).
  exact G.
Defined.

(** C6. Selection consistency: for every query [q] and every prior
    state, [setQuery q] returns a state that holds [q] as typed, and: if
    [filteredDocs q] is not empty and the selected id is not among its
    ids, the new selected id is the id of [filteredDocs q][0]; if the
    selected id is among them, it is unchanged; if [filteredDocs q] is
    empty, it is unchanged. *)
Theorem selection_consistency (docs : list DocPage) (q : string) (st : AppState) :
  let filtered := filteredDocs docs q in
  exists st',
    fst (setQuery docs q st) = Returned st'
    /\ query st' = q
    /\ theme st' = theme st
    /\ (filtered <> [] -> ~ In (selectedDocId st) (ids filtered) ->
          exists first, filtered !! 0 = Some first
                        /\ selectedDocId st' = id first)
    /\ (In (selectedDocId st) (ids filtered) ->
          selectedDocId st' = selectedDocId st)
    /\ (filtered = [] -> selectedDocId st' = selectedDocId st).
Proof.
  cbv zeta. unfold setQuery. rewrite repairSelection_unfold.
  cbn [query selectedDocId theme].
  destruct (filteredDocs docs q) as [|d rest] eqn:Hf.
  - eexists. split; [reflexivity|]. cbn. repeat split; tauto.
  - destruct (existsb _ (d :: rest)) eqn:Hv.
    + apply stillVisible_In in Hv.
      eexists. split; [reflexivity|]. cbn [query theme selectedDocId].
      repeat split; tauto.
    + assert (~ In (selectedDocId st) (ids (d :: rest))) as Hnot.
      { rewrite <- stillVisible_In, Hv. discriminate. }
      eexists. split; [reflexivity|]. cbn [query theme selectedDocId].
      repeat split; try tauto; try discriminate. eauto.
Qed.

(** Specification example 4 and the repair: a query without a match
    keeps the selection, a query that hides the selection moves it to the
    first record shown. *)
Example selection_consistency_witness :
  let st := {| selectedDocId := "introduction"; query := ""; theme := "light" |} in
  (exists st', fst (setQuery (Content.docs noText) "zzz-no-match" st) = Returned st'
               /\ selectedDocId st' = "introduction")
  /\ (exists st', fst (setQuery (Content.docs noText) "Reference" st) = Returned st'
                  /\ selectedDocId st' = "language-reference").
Proof.
  cbv zeta. split.
  - destruct (selection_consistency (Content.docs noText) "zzz-no-match"
                {| selectedDocId := "introduction"; query := ""; theme := "light" |})
      as (st' & Hr & _ & _ & _ & _ & Hempty).
    exists st'. split; [exact Hr | apply Hempty; reflexivity].
  - destruct (selection_consistency (Content.docs noText) "Reference"
                {| selectedDocId := "introduction"; query := ""; theme := "light" |})
      as (st' & Hr & _ & _ & Hrepair & _).
    exists st'. split; [exact Hr|].
    destruct Hrepair as (first & Hfirst & ->).
    + vm_compute. discriminate.
    + vm_compute. intuition discriminate.
    + vm_compute in Hfirst. injection Hfirst as <-. reflexivity.
Defined.

(** ** Registry lookup and its callers *)

Lemma findById_unique (docs : list DocPage) (r : DocPage) :
  NoDup (ids docs) -> In r docs -> findById docs (id r) = Some r.
Proof.
  unfold findById, ids. induction docs as [|a l IH]; intros Hnd Hin; [destruct Hin|].
  cbn [List.map] in Hnd. apply NoDup_cons in Hnd as [Ha Hl]. cbn [List.find].
  destruct (id a === id r) eqn:He.
  - apply eqb_true in He. destruct Hin as [-> | Hin]; [reflexivity|].
    exfalso. apply Ha. rewrite He. apply list_elem_of_In, in_map, Hin.
  - apply eqb_false in He. destruct Hin as [-> | Hin]; [congruence|].
    apply IH; assumption.
Qed.

(** C7. Registry lookup, relying on id uniqueness: for every record [r]
    of the registry, [findById (id r)] returns [r]; for every string [s]
    that is no registry id, [findById s] returns absent ([None], nothing
    is thrown); and the callers fall back on absence: the active document
    is then [docs[0]], the first record, and the route of the fragment
    [#/s] is [Landing]. *)
Theorem registry_lookup (docs : list DocPage) :
  NoDup (ids docs) ->
  (forall r, In r docs -> findById docs (id r) = Some r)
  /\ (forall s, ~ In s (ids docs) -> findById docs s = None)
  /\ (forall (s : string) (st : AppState),
        ~ In s (ids docs) -> selectedDocId st = s ->
        fst (activeDoc docs st) = Returned (head docs))
  /\ (forall (s : string) (w : Window),
        ~ In s (ids docs) -> hash (location w) = "#/" +:+ s ->
        fst (parseHash docs w) = Landing).
Proof.
  intros Hnd. repeat split.
  - intros r Hin. apply findById_unique; assumption.
  - intros s Hnot. apply findById_None, Hnot.
  - intros s st Hnot <-. apply findById_None in Hnot.
    unfold activeDoc. rewrite Hnot. destruct docs; reflexivity.
  - intros s w Hnot Hh. rewrite (parseHash_slash_unknown docs w s Hh Hnot).
    reflexivity.
Qed.

Lemma docs_ids_unique (raw : string -> string) : NoDup (ids (Content.docs raw)).
Proof.
  cbn. repeat (apply NoDup_cons_2; [rewrite list_elem_of_In; simpl; intuition discriminate|]).
  apply NoDup_nil_2.
Qed.

(** The lookup in the registry of the book. *)
Example registry_lookup_witness :
  NoDup (ids (Content.docs noText))
  /\ findById (Content.docs noText) "eadv-model" =
       Some {| id := "eadv-model";
               title := "EADV Model";
               description := "Understanding the Entity-Attribute-Date-Value data structure";
               content := "" |}
  /\ findById (Content.docs noText) "ruleblocks" = None.
Proof.
  split; [apply docs_ids_unique|].
  destruct (registry_lookup (Content.docs noText) (docs_ids_unique noText))
    as (Hfound & Habsent & _).
  split.
  - refine (Hfound {| id := "eadv-model" |} _). vm_compute. tauto.
  - apply Habsent. vm_compute. intuition discriminate.
Defined.

(** ** Theme *)

Lemma applyTheme_stored (st : AppState) (h : Host) :
  localStorage (applyTheme st h) !! "theme" = Some (theme st).
Proof. unfold applyTheme. cbn [localStorage]. apply lookup_insert_eq. Qed.

(** The class of the root element follows the theme. *)
Lemma applyTheme_class (st : AppState) (h : Host) :
  "dark" ∈ classList (applyTheme st h) <-> theme st = "dark".
Proof.
  unfold applyTheme. cbn [classList].
  destruct (theme st === "dark") eqn:He.
  - apply eqb_true in He. rewrite elem_of_union, elem_of_singleton. tauto.
  - apply eqb_false in He. rewrite elem_of_difference, elem_of_singleton. tauto.
Qed.

Lemma clickTheme_stored (st : AppState) (h : Host) :
  localStorage (snd (clickTheme (st, h))) !! "theme"
  = Some (theme (fst (clickTheme (st, h)))).
Proof. unfold clickTheme. cbn [fst snd]. apply applyTheme_stored. Qed.

(** A click always changes the theme, so the theme effect always runs. *)
Lemma toggleTheme_changes (st : AppState) : theme (toggleTheme st) <> theme st.
Proof.
  unfold toggleTheme. cbn [theme].
  destruct (theme st === "light") eqn:He.
  - apply eqb_true in He. rewrite He. discriminate.
  - apply eqb_false in He. congruence.
Qed.

Lemma mount_stored (docs : list DocPage) (h h' : Host) (st' : AppState) :
  fst (mount docs h) = Returned (st', h') ->
  localStorage h' !! "theme" = Some (theme st').
Proof.
  unfold mount, bind.
  destruct (arrayGet docs 0) as [[first|] r1]; [|discriminate].
  destruct (prop id first) as [[firstId|] r2]; [|discriminate].
  destruct (article docs _) as [[a|] r3]; [|discriminate].
  destruct (repairSelection docs _) as [[st1|] r4]; [|discriminate].
  cbn. intros [= <- <-]. apply applyTheme_stored.
Qed.

(** C8. Theme round-trip and persistence: from [light] or from [dark],
    two clicks on the theme button bring the theme back, and after each
    click the value stored under the key [theme] is the theme in memory;
    the same holds after the first render. *)
Theorem theme_round_trip (st : AppState) (h : Host) :
  theme st = "light" \/ theme st = "dark" ->
  let once := clickTheme (st, h) in
  let twice := clickTheme once in
  theme (fst twice) = theme st
  /\ theme (fst once) <> theme st
  /\ localStorage (snd once) !! "theme" = Some (theme (fst once))
  /\ localStorage (snd twice) !! "theme" = Some (theme (fst twice))
  /\ (forall docs h0 st0 h0',
        fst (mount docs h0) = Returned (st0, h0') ->
        localStorage h0' !! "theme" = Some (theme st0)).
Proof.
  intros Ht. cbv zeta. split; [|split; [|split; [|split]]].
  - unfold clickTheme, toggleTheme. cbn [fst snd theme].
    destruct Ht as [-> | ->]; reflexivity.
  - apply toggleTheme_changes.
  - apply clickTheme_stored.
  - destruct (clickTheme (st, h)) as [st1 h1]. apply clickTheme_stored.
  - intros docs h0 st0 h0'. apply mount_stored.
Qed.

(** Specification example 5: nothing stored, the system prefers dark; the
    first render stores [dark], a click stores [light], a second click
    stores [dark] again. *)
Example theme_round_trip_witness :
  let st := {| selectedDocId := "introduction"; query := ""; theme := "dark" |} in
  let h := {| localStorage := {["theme" := "dark"]}; classList := {["dark"]};
              prefersDark := true |} in
  theme st = "dark"
  /\ theme (fst (clickTheme (st, h))) = "light"
  /\ localStorage (snd (clickTheme (st, h))) !! "theme" = Some "light"
  /\ theme (fst (clickTheme (clickTheme (st, h)))) = "dark".
Proof.
  cbv zeta.
  destruct (theme_round_trip
              {| selectedDocId := "introduction"; query := ""; theme := "dark" |}
              {| localStorage := {["theme" := "dark"]}; classList := {["dark"]};
                 prefersDark := true |})
    as (Hback & _ & Hstored & _); [right; reflexivity|].
  split; [reflexivity|]. split; [reflexivity|]. split; [exact Hstored | exact Hback].
Defined.

(** C9, as amended. Theme initialization does not validate the stored
    value: for every non-empty string [s] stored under the key [theme]
    the initial theme is [s] itself, be it [light], [dark] or anything
    else; the system preference probe and the [light] default decide when
    nothing is stored or when the stored value is the empty string, and
    only then. *)
Theorem initialTheme_unvalidated (h : Host) :
  (forall s, localStorage h !! "theme" = Some s -> s <> "" ->
     forall dark, initialTheme (withPreference dark h) = s)
  /\ (localStorage h !! "theme" = None \/ localStorage h !! "theme" = Some "" ->
        initialTheme h = if prefersDark h then "dark" else "light")
  /\ (initialTheme (withPreference true h) <> initialTheme (withPreference false h) ->
        localStorage h !! "theme" = None \/ localStorage h !! "theme" = Some "").
Proof.
  unfold initialTheme, withPreference. cbn [localStorage prefersDark].
  destruct (localStorage h !! "theme") as [s|] eqn:Hs.
  - destruct (s === "") eqn:He.
    + apply eqb_true in He. subst s. repeat split; auto. congruence.
    + apply eqb_false in He. repeat split.
      * intros s' [= <-] _ dark. reflexivity.
      * intros [H | [= H]]; [discriminate | contradiction].
      * intros H. contradiction.
  - repeat split; auto. discriminate.
Qed.

(** C9, as stated, fails when the stored value is the empty string: a
    value exists under the key, and the probe still decides. *)
Lemma empty_stored_theme_is_probed :
  ~ probeUnusedWhenStored
      {| localStorage := {["theme" := ""]}; classList := ∅; prefersDark := false |}.
Proof.
  unfold probeUnusedWhenStored. intros H.
  assert (is_Some (({["theme" := ""]} : gmap string string) !! "theme")) as Hs.
  { rewrite lookup_singleton_eq. eauto. }
  specialize (H Hs). vm_compute in H. discriminate H.
Qed.

(** A stored value that is no theme at all is taken as it is. *)
Example initialTheme_unvalidated_witness :
  initialTheme {| localStorage := {["theme" := "blue"]}; classList := ∅;
                  prefersDark := true |} = "blue".
Proof.
  destruct (initialTheme_unvalidated
              {| localStorage := {["theme" := "blue"]}; classList := ∅;
                 prefersDark := true |}) as (G & _).
  apply (G "blue" (lookup_singleton_eq _ _) ltac:(discriminate) true).
Defined.

(** ** Array reads *)

(* A single read of index 0 of a non-empty array. *)
Ltac read_in_range :=
  constructor;
  [unfold inRange; cbn [arrayLength readIndex length]; lia | constructor].

Section IndexReads.

Variable docs : list DocPage.

Lemma repairSelection_reads (st : AppState) :
  exists st' reads,
    repairSelection docs st = (Returned st', reads) /\ Forall inRange reads.
Proof.
  rewrite repairSelection_unfold.
  destruct (filteredDocs docs (query st)) as [|d rest]; [unfold ret; eauto|].
  destruct (existsb _ (d :: rest)); [unfold ret; eauto|].
  do 2 eexists. split; [reflexivity | read_in_range].
Qed.

Lemma activeDoc_reads (st : AppState) :
  docs <> [] ->
  exists d reads,
    activeDoc docs st = (Returned (Some d), reads)
    /\ Forall inRange reads
    /\ (findById docs (selectedDocId st) = None -> head docs = Some d).
Proof.
  intros Hne. unfold activeDoc.
  destruct (findById docs (selectedDocId st)) as [d|].
  - exists d, []. repeat split; [constructor | discriminate].
  - destruct docs as [|d rest]; [contradiction|].
    exists d. eexists. split; [reflexivity|]. split; [read_in_range | reflexivity].
Qed.

Lemma article_reads (st : AppState) :
  docs <> [] ->
  exists text reads,
    article docs st = (Returned text, reads) /\ Forall inRange reads.
Proof.
  intros Hne. unfold article.
  destruct (activeDoc_reads st Hne) as (d & reads & -> & Hr & _).
  exists (content d), reads. cbn. rewrite app_nil_r. auto.
Qed.

Lemma mount_reads (h : Host) :
  docs <> [] ->
  exists result reads,
    mount docs h = (Returned result, reads) /\ Forall inRange reads.
Proof.
  intros Hne. unfold mount.
  destruct docs as [|d rest] eqn:Hd; [contradiction|]. rewrite <- Hd in *.
  assert (arrayGet docs 0 =
          (Returned (Some d), [{| arrayLength := length docs; readIndex := 0 |}]))
    as -> by (rewrite Hd; reflexivity).
  cbn [bind prop ret].
  match goal with |- context [article docs ?s] =>
    destruct (article_reads s Hne) as (text & r1 & -> & Hr1);
    destruct (repairSelection_reads s) as (st' & r2 & -> & Hr2)
  end.
  cbn. do 2 eexists. split; [reflexivity|].
  constructor; [unfold inRange; rewrite Hd; simpl; lia|].
  rewrite app_nil_r. apply Forall_app; auto.
Qed.

End IndexReads.

(** C10. Non-empty registry precondition. With at least one record in the
    registry no array is read out of range: the first render returns, and
    its reads (among them [docs[0]] for the initial selection) are in
    range; the active document is always a record, the first one when the
    selected id matches nothing, and rendering the article returns.  The
    selection effect, for any registry, returns and reads
    [filteredDocs[0]] only in range, that is only when the filtered list
    is not empty.  With an empty registry the first render fails: it
    reads index 0 of an array of length 0 and throws. *)
Theorem nonempty_registry_precondition (docs : list DocPage) :
  (docs <> [] ->
     (forall h, exists result reads,
         mount docs h = (Returned result, reads) /\ Forall inRange reads)
     /\ (forall st, exists d reads,
           activeDoc docs st = (Returned (Some d), reads)
           /\ Forall inRange reads
           /\ (findById docs (selectedDocId st) = None -> head docs = Some d))
     /\ (forall st, exists text reads,
           article docs st = (Returned text, reads) /\ Forall inRange reads))
  /\ (forall st, exists st' reads,
        repairSelection docs st = (Returned st', reads)
        /\ Forall inRange reads
        /\ (reads <> [] -> filteredDocs docs (query st) <> []))
  /\ (docs = [] ->
      forall h, mount docs h = (TypeError, [{| arrayLength := 0; readIndex := 0 |}])).
Proof.
  split; [|split].
  - intros Hne. split; [|split].
    + intros h. apply mount_reads, Hne.
    + intros st. apply activeDoc_reads, Hne.
    + intros st. apply article_reads, Hne.
  - intros st. destruct (repairSelection_reads docs st) as (st' & reads & Hr & Hin).
    exists st', reads. repeat split; auto.
    intros Hreads Hf. rewrite repairSelection_unfold, Hf in Hr.
    injection Hr as _ <-. contradiction.
  - intros -> h. reflexivity.
Qed.

(** The first render of the book, and of a site without pages. *)
Example nonempty_registry_precondition_witness :
  (exists result reads,
      mount (Content.docs noText)
            {| localStorage := ∅; classList := ∅; prefersDark := false |}
      = (Returned result, reads) /\ Forall inRange reads)
  /\ fst (mount [] {| localStorage := ∅; classList := ∅; prefersDark := false |})
     = TypeError.
Proof.
  split.
  - destruct (nonempty_registry_precondition (Content.docs noText)) as (G & _).
    apply G. discriminate.
  - destruct (nonempty_registry_precondition []) as (_ & _ & G).
    rewrite (G eq_refl). reflexivity.
Defined.

(** * Further properties of the router *)

Lemma setHash_shape (value : string) (w : Window) :
  setHash value w = w
  \/ exists h',
       h' <> hash (location w)
       /\ setHash value w =
            {| location := {| pathname := pathname (location w);
                              search := search (location w);
                              hash := h' |};
               history := location w :: history w;
               hashchange := S (hashchange w) |}.
Proof.
  unfold setHash.
  match goal with |- context [if ?b then w else _] => destruct b eqn:He end.
  - left. reflexivity.
  - right. apply eqb_false in He. eauto.
Qed.

Section RouterSessions.

Variable docs : list DocPage.

(** The route [parseHash] returns is read from the fragment alone. *)
Lemma parseHash_route_hash (w1 w2 : Window) :
  hash (location w1) = hash (location w2) ->
  fst (parseHash docs w1) = fst (parseHash docs w2).
Proof.
  intros He. unfold parseHash. rewrite He.
  repeat match goal with
         | |- context [if ?b then _ else _] => destruct b
         | |- context [match ?o with Some _ => _ | None => _ end] => destruct o
         end; reflexivity.
Qed.

(** Parsing with an empty event queue in view: either the window is left
    alone, or an event is queued. *)
Lemma parseHash_queue (w : Window) :
  snd (parseHash docs w) = w
  \/ exists n, hashchange (snd (parseHash docs w)) = S n.
Proof.
  destruct (parseHash_cases docs w) as [-> | [(v & _ & _ & ->) | (v & _ & _ & ->)]];
    cbn [snd]; auto.
  destruct (setHash_shape ("#/" +:+ v) w) as [-> | (h' & _ & ->)]; eauto.
Qed.

Lemma handleHashChange_parsed (st : Router) :
  handleHashChange docs st = parsed docs (window st).
Proof. unfold handleHashChange, parsed. destruct (parseHash docs (window st)); reflexivity. Qed.

Lemma useHashRouter_parsed (w : Window) :
  useHashRouter docs w =
    {| window := replacingEntry w (snd (parseHash docs w));
       route := fst (parseHash docs w) |}.
Proof. unfold useHashRouter. destruct (parseHash docs w); reflexivity. Qed.

Lemma parsed_inSync (w : Window) : inSync docs (parsed docs w).
Proof.
  unfold inSync, parsed. cbn [window route].
  destruct (parseHash_queue w) as [-> | [n ->]]; [reflexivity | discriminate].
Qed.

Lemma useHashRouter_inSync (w : Window) : inSync docs (useHashRouter docs w).
Proof.
  rewrite useHashRouter_parsed. unfold inSync. cbn [window route replacingEntry hashchange].
  destruct (parseHash_queue w) as [E | [n E]]; rewrite E; [|discriminate].
  intros _. apply parseHash_route_hash. reflexivity.
Qed.

Lemma step_inSync (st : Router) (e : Event) : inSync docs st -> inSync docs (step docs st e).
Proof.
  intros Hs. destruct e as [[|docId] | h | |]; cbn [step].
  - unfold navigate, pushState.
    destruct (JS.startsWith (pathname (location (window st))) "//"); [exact Hs|].
    unfold inSync. intros _.
    rewrite parseHash_landing_forms; [reflexivity | left; reflexivity].
  - unfold inSync, navigate. cbn [window route].
    destruct (setHash_shape ("#/" +:+ docId) (window st)) as [-> | (h' & _ & ->)];
      [exact Hs | discriminate].
  - unfold inSync, follow. cbn [window route].
    destruct (h === hash (location (window st))); [exact Hs | discriminate].
  - unfold inSync, back. cbn [window route].
    destruct (history (window st)) as [|prev older]; [exact Hs|].
    cbn [hashchange]. destruct (hash prev === hash (location (window st))) eqn:He;
      [|discriminate].
    apply eqb_true in He. intros H0. rewrite (Hs H0).
    apply parseHash_route_hash. cbn. congruence.
  - unfold deliver. destruct (hashchange (window st)); [exact Hs|].
    rewrite handleHashChange_parsed. apply parsed_inSync.
Qed.

End RouterSessions.

(** X1. The route follows the URL: after the hook has mounted on any
    window and any sequence of [navigate] calls, fragment changes, Back
    steps and delivered events, whenever no [hashchange] event is queued
    the route is the one [parseHash] reads from the current fragment. *)
Theorem route_in_sync (docs : list DocPage) (w : Window) (events : list Event) :
  let st := run docs events (useHashRouter docs w) in
  hashchange (window st) = 0 ->
  route st = fst (parseHash docs (window st)).
Proof.
  cbv zeta. change (inSync docs (run docs events (useHashRouter docs w))).
  assert (inSync docs (useHashRouter docs w)) as H0
    by apply useHashRouter_inSync.
  revert H0. generalize (useHashRouter docs w).
  induction events as [|e events IH]; intros st Hs; [exact Hs|].
  cbn [run fold_left]. apply IH, step_inSync, Hs.
Qed.

(** A session that ends with its events delivered: the route is read
    from the last fragment. *)
Example route_in_sync_witness :
  let docs := Content.docs noText in
  let st := run docs [Navigate (Doc "examples"); HashChange;
                      Follow "#doc-tutorial"; HashChange; HashChange]
                (useHashRouter docs (freshWindow "")) in
  hashchange (window st) = 0
  /\ route st = fst (parseHash docs (window st))
  /\ route st = Doc "tutorial".
Proof.
  cbv zeta. split; [reflexivity|]. split; [|reflexivity].
  apply (route_in_sync (Content.docs noText) (freshWindow "")
           [Navigate (Doc "examples"); HashChange;
            Follow "#doc-tutorial"; HashChange; HashChange]).
  reflexivity.
Defined.



(** X3. Parsing twice is parsing once, for every registry whose ids are
    non-empty and stored as written in a fragment: the window a parse
    leaves reads as the same route and is left alone by the next parse. *)
Theorem parseHash_idempotent (docs : list DocPage) (w : Window) :
  routable docs = true ->
  parseHash docs (snd (parseHash docs w)) = parseHash docs w.
Proof.
  intros Hr.
  destruct (parseHash_cases docs w) as [E | [(v & Hin & Hh & E) | (v & _ & _ & E)]].
  - rewrite E. cbn [snd]. exact E.
  - destruct (redirect_then_reparse docs Hr w v Hin Hh) as (E1 & _ & _ & E2).
    rewrite E2. symmetry. exact E1.
  - rewrite E. cbn [snd]. exact E.
Qed.

Example parseHash_idempotent_witness :
  let docs := Content.docs noText in
  let w := freshWindow "#doc-developers" in
  parseHash docs (snd (parseHash docs w)) = parseHash docs w
  /\ fst (parseHash docs w) = Doc "developers".
Proof.
  cbv zeta. split; [|reflexivity].
  apply parseHash_idempotent. reflexivity.
Defined.

Section NavigateFacts.

Variable docs : list DocPage.

(** Assigning the canonical fragment of a safe segment that is not the
    current one, then delivering the event it queued, with nothing else
    queued: the window reached, and the route [parseHash] reads there. *)
Lemma navigate_then_deliver (st : Router) (x : string) :
  fragmentSafe x = true ->
  hashchange (window st) = 0 ->
  hash (location (window st)) <> "#/" +:+ x ->
  let w' := {| location := {| pathname := pathname (location (window st));
                              search := search (location (window st));
                              hash := "#/" +:+ x |};
               history := location (window st) :: history (window st);
               hashchange := 0 |} in
  run docs [Navigate (Doc x); HashChange] st = parsed docs w'.
Proof.
  intros Hs H0 Hne. cbv zeta. cbn [run fold_left step navigate].
  rewrite (setHash_canonical _ _ Hs).
  assert (("#/" +:+ x === hash (location (window st))) = false) as ->
    by (apply eqb_false; congruence).
  unfold deliver. cbn [window hashchange location history route].
  rewrite H0, handleHashChange_parsed. reflexivity.
Qed.

End NavigateFacts.

(** X4. Navigating to a document: for a registry whose ids are non-empty
    and stored as written, [navigate (Doc v)] for a registry id [v],
    called with no event queued on another fragment and followed by the
    delivery of the event it queues, makes [Doc v] the route and [#/v]
    the fragment, keeps the entry left as the one Back returns to, and
    leaves no event queued; called on the fragment [#/v] itself it
    changes nothing and queues nothing. *)
Theorem navigate_doc_resolves (docs : list DocPage) (v : string) (st : Router) :
  routable docs = true ->
  In v (ids docs) ->
  (hashchange (window st) = 0 ->
   hash (location (window st)) <> "#/" +:+ v ->
   let st' := run docs [Navigate (Doc v); HashChange] st in
   route st' = Doc v
   /\ hash (location (window st')) = "#/" +:+ v
   /\ history (window st') = location (window st) :: history (window st)
   /\ hashchange (window st') = 0)
  /\ (hash (location (window st)) = "#/" +:+ v -> navigate (Doc v) st = st).
Proof.
  intros Hr Hin. destruct (routable_id _ _ Hr Hin) as [_ Hs]. split.
  - intros H0 Hne. cbv zeta.
    rewrite (navigate_then_deliver docs st v Hs H0 Hne). unfold parsed.
    rewrite parseHash_canonical_known with (v := v);
      [|exact Hr|exact Hin|reflexivity].
    repeat split.
  - intros Hh. unfold navigate. rewrite (setHash_canonical _ _ Hs), Hh.
    rewrite String.eqb_refl. destruct st; reflexivity.
Qed.

(** From the landing page to the tutorial. *)
Example navigate_doc_resolves_witness :
  let docs := Content.docs noText in
  let st := useHashRouter docs (freshWindow "") in
  let st' := run docs [Navigate (Doc "tutorial"); HashChange] st in
  route st = Landing /\ route st' = Doc "tutorial"
  /\ hash (location (window st')) = "#/tutorial".
Proof.
  cbv zeta. split; [reflexivity|].
  destruct (navigate_doc_resolves (Content.docs noText) "tutorial"
              (useHashRouter (Content.docs noText) (freshWindow "")))
    as ((Hroute & Hhash & _) & _).
  - reflexivity.
  - cbn. tauto.
  - reflexivity.
  - discriminate.
  - split; assumption.
Defined.

(** X5. Navigating to a document that does not exist: [navigate (Doc x)]
    for a segment [x] that is stored as written and is no registry id,
    called with no event queued on another fragment and followed by the
    delivery of its event, ends on the landing route, while the URL keeps
    the fragment [#/x]. *)
Theorem navigate_unknown_doc_lands (docs : list DocPage) (x : string) (st : Router) :
  fragmentSafe x = true ->
  ~ In x (ids docs) ->
  hashchange (window st) = 0 ->
  hash (location (window st)) <> "#/" +:+ x ->
  let st' := run docs [Navigate (Doc x); HashChange] st in
  route st' = Landing
  /\ hash (location (window st')) = "#/" +:+ x
  /\ hashchange (window st') = 0.
Proof.
  intros Hs Hnot H0 Hne. cbv zeta.
  rewrite (navigate_then_deliver docs st x Hs H0 Hne). unfold parsed.
  rewrite parseHash_slash_unknown with (seg := x); [|reflexivity|exact Hnot].
  repeat split.
Qed.

Example navigate_unknown_doc_lands_witness :
  let docs := Content.docs noText in
  let st := useHashRouter docs (freshWindow "#/tutorial") in
  let st' := run docs [Navigate (Doc "glossary"); HashChange] st in
  route st = Doc "tutorial" /\ route st' = Landing
  /\ hash (location (window st')) = "#/glossary".
Proof.
  cbv zeta. split; [reflexivity|].
  destruct (navigate_unknown_doc_lands (Content.docs noText) "glossary"
              (useHashRouter (Content.docs noText) (freshWindow "#/tutorial")))
    as (Hroute & Hhash & _).
  - reflexivity.
  - cbn. intuition discriminate.
  - reflexivity.
  - discriminate.
  - split; assumption.
Defined.

Lemma deliver_on_empty_fragment (docs : list DocPage) (s : Router) :
  route s = Landing ->
  hash (location (window s)) = "" ->
  route (deliver docs s) = Landing
  /\ location (window (deliver docs s)) = location (window s)
  /\ history (window (deliver docs s)) = history (window s)
  /\ hashchange (window (deliver docs s)) = hashchange (window s) - 1.
Proof.
  intros Hroute Hhash. unfold deliver.
  destruct (hashchange (window s)) as [|k] eqn:Hk.
  - rewrite Hk. auto.
  - rewrite handleHashChange_parsed. unfold parsed. cbn [window].
    rewrite parseHash_landing_forms by (left; exact Hhash).
    cbn. rewrite Nat.sub_0_r. auto.
Qed.

Lemma deliveries_on_empty_fragment (docs : list DocPage) (n : nat) (s : Router) :
  route s = Landing ->
  hash (location (window s)) = "" ->
  let s' := run docs (repeat HashChange n) s in
  route s' = Landing
  /\ location (window s') = location (window s)
  /\ history (window s') = history (window s)
  /\ hashchange (window s') = hashchange (window s) - n.
Proof.
  cbv zeta. revert s. induction n as [|n IH]; intros s Hroute Hhash.
  - cbn. rewrite Nat.sub_0_r. auto.
  - destruct (deliver_on_empty_fragment docs s Hroute Hhash) as (Hr & Hl & Hh & Hq).
    cbn [repeat run fold_left step].
    change (fold_left (step docs) (repeat HashChange n) (deliver docs s))
      with (run docs (repeat HashChange n) (deliver docs s)).
    destruct (IH (deliver docs s) Hr) as (-> & -> & -> & ->);
      [rewrite Hl; exact Hhash|].
    rewrite Hq. repeat split; auto. lia.
Qed.

(** X6. The landing page holds: on a page whose path does not begin
    with two slashes, after [navigate Landing], however many events were
    still queued and are delivered afterwards, the route stays [Landing]
    and the URL stays the bare path; the history is not touched by those
    deliveries. *)
Theorem navigate_landing_holds (docs : list DocPage) (st : Router) (n : nat) :
  JS.startsWith (pathname (location (window st))) "//" = false ->
  let landed := navigate Landing st in
  let st' := run docs (repeat HashChange n) landed in
  route st' = Landing
  /\ location (window st') =
       {| pathname := pathname (location (window st)); search := ""; hash := "" |}
  /\ location (window st') = location (window landed)
  /\ history (window st') = history (window landed)
  /\ hashchange (window st') = hashchange (window landed) - n.
Proof.
  intros Hpath. cbv zeta.
  assert (navigate Landing st =
          {| window := {| location := {| pathname := pathname (location (window st));
                                         search := ""; hash := "" |};
                          history := location (window st) :: history (window st);
                          hashchange := hashchange (window st) |};
             route := Landing |}) as ->
    by (unfold navigate, pushState; rewrite Hpath; reflexivity).
  match goal with |- context [run docs _ ?s] =>
    destruct (deliveries_on_empty_fragment docs n s eq_refl eq_refl)
      as (Hr & Hl & Hh & Hq)
  end.
  rewrite Hr, Hl, Hh, Hq. repeat split.
Qed.

(** A click on a document followed at once by the way back to the
    landing page: the event of the first call arrives late and changes
    nothing. *)
Example navigate_landing_holds_witness :
  let docs := Content.docs noText in
  let st := navigate (Doc "tutorial") (useHashRouter docs (freshWindow "")) in
  let st' := run docs (repeat HashChange 3) (navigate Landing st) in
  hashchange (window st) = 1 /\ route st' = Landing
  /\ hash (location (window st')) = "".
Proof.
  cbv zeta. split; [reflexivity|].
  destruct (navigate_landing_holds (Content.docs noText)
              (navigate (Doc "tutorial")
                 (useHashRouter (Content.docs noText) (freshWindow ""))) 3
              eq_refl)
    as (Hroute & Hloc & _).
  split; [exact Hroute | rewrite Hloc; reflexivity].
Defined.

(** X7. A legacy link followed on the loaded page traps the Back
    button.  For a registry whose ids are non-empty and stored as
    written, and a registry id [v]: the user follows the link [#doc-v]
    with no event queued, and the two events this sets off are
    delivered; the route is then [Doc v], the fragment [#/v], and the
    legacy entry is in the history, because the listener's redirect adds
    an entry.  From there Back, followed by the delivery of the two
    events it sets off, leads to the very same state: the same route, the
    same URL and the same history. *)
Theorem legacy_link_traps_back (docs : list DocPage) (v : string) (st : Router) :
  routable docs = true ->
  In v (ids docs) ->
  hashchange (window st) = 0 ->
  hash (location (window st)) <> "#doc-" +:+ v ->
  let st1 := run docs [Follow ("#doc-" +:+ v); HashChange; HashChange] st in
  route st1 = Doc v
  /\ hash (location (window st1)) = "#/" +:+ v
  /\ hashchange (window st1) = 0
  /\ history (window st1) =
       {| pathname := pathname (location (window st));
          search := search (location (window st));
          hash := "#doc-" +:+ v |} :: location (window st) :: history (window st)
  /\ run docs [Back; HashChange; HashChange] st1 = st1.
Proof.
  intros Hr Hin H0 Hne. cbv zeta.
  destruct st as [[[p s h] hist q] r].
  cbn [window location hash hashchange] in H0, Hne. subst q.
  assert (forall hist' r',
             run docs [HashChange; HashChange]
               {| window := {| location := {| pathname := p; search := s;
                                              hash := "#doc-" +:+ v |};
                               history := hist'; hashchange := 1 |};
                  route := r' |}
             = {| window := {| location := {| pathname := p; search := s;
                                              hash := "#/" +:+ v |};
                               history := {| pathname := p; search := s;
                                             hash := "#doc-" +:+ v |} :: hist';
                               hashchange := 0 |};
                  route := Doc v |}) as Hsettle.
  { intros hist' r'. cbn [run fold_left step]. unfold deliver at 2.
    cbn [window hashchange location history route].
    rewrite handleHashChange_parsed. unfold parsed. cbn [window].
    rewrite parseHash_legacy_known with (v := v); [|reflexivity|exact Hin].
    rewrite redirect_stores_canonical with (docs := docs);
      [|exact Hr|exact Hin|reflexivity].
    cbn [fst snd]. unfold deliver.
    cbn [window hashchange location history route].
    rewrite handleHashChange_parsed. unfold parsed. cbn [window].
    rewrite parseHash_canonical_known with (v := v);
      [|exact Hr|exact Hin|reflexivity].
    reflexivity. }
  assert (run docs [Follow ("#doc-" +:+ v); HashChange; HashChange]
            {| window := {| location := {| pathname := p; search := s; hash := h |};
                            history := hist; hashchange := 0 |};
               route := r |}
          = run docs [HashChange; HashChange]
              {| window := {| location := {| pathname := p; search := s;
                                             hash := "#doc-" +:+ v |};
                              history := {| pathname := p; search := s; hash := h |}
                                         :: hist;
                              hashchange := 1 |};
                 route := r |}) as ->.
  { cbn [run fold_left step]. unfold follow. cbn [window location hash].
    assert (("#doc-" +:+ v === h) = false) as -> by (apply eqb_false; congruence).
    reflexivity. }
  rewrite Hsettle. cbn [route window location hash hashchange history pathname search].
  repeat split.
  cbn [run fold_left step back window history location hash hashchange route].
  assert (("#doc-" +:+ v === "#/" +:+ v) = false) as -> by reflexivity.
  exact (Hsettle _ _).
Qed.

Example legacy_link_traps_back_witness :
  let docs := Content.docs noText in
  let st := run docs [Navigate (Doc "tutorial"); HashChange]
                (useHashRouter docs (freshWindow "")) in
  let st1 := run docs [Follow "#doc-examples"; HashChange; HashChange] st in
  route st = Doc "tutorial"
  /\ route st1 = Doc "examples"
  /\ hash (location (window st1)) = "#/examples"
  /\ run docs [Back; HashChange; HashChange] st1 = st1.
Proof.
  cbv zeta. split; [reflexivity|].
  destruct (legacy_link_traps_back (Content.docs noText) "examples"
              (run (Content.docs noText) [Navigate (Doc "tutorial"); HashChange]
                 (useHashRouter (Content.docs noText) (freshWindow ""))))
    as (Hroute & Hhash & _ & _ & Hback).
  - reflexivity.
  - cbn. tauto.
  - reflexivity.
  - discriminate.
  - auto.
Defined.

(** * Further properties of the component *)

Lemma bind_ret_l {A B} (a : A) (k : A -> Eff B) : bind (ret a) k = k a.
Proof. unfold bind, ret. destruct (k a). reflexivity. Qed.

Lemma bind_Returned {A B} (m : Eff A) (k : A -> Eff B) (a : A) (reads : list IndexRead) :
  m = (Returned a, reads) -> bind m k = (fst (k a), reads ++ snd (k a)).
Proof. intros ->. unfold bind. destruct (k a). reflexivity. Qed.

Lemma mapEff_pure {A B} (f : A -> B) (arr : list A) :
  mapEff (fun a => ret (f a)) arr = ret (List.map f arr).
Proof.
  induction arr as [|a rest IH]; [reflexivity|].
  cbn [mapEff List.map]. rewrite bind_ret_l, IH, bind_ret_l. reflexivity.
Qed.

Lemma mapEff_ext {A B} (f g : A -> Eff B) (arr : list A) :
  (forall a, f a = g a) -> mapEff f arr = mapEff g arr.
Proof.
  intros He. induction arr as [|a rest IH]; [reflexivity|].
  cbn [mapEff]. rewrite He, IH. reflexivity.
Qed.

Lemma NoDup_map_eq {A B} (f : A -> B) (l : list A) (x y : A) :
  NoDup (List.map f l) -> In x l -> In y l -> f x = f y -> x = y.
Proof.
  induction l as [|a l IH]; intros Hnd Hx Hy He; [destruct Hx|].
  cbn [List.map] in Hnd. apply NoDup_cons in Hnd as [Ha Hl].
  rewrite list_elem_of_In in Ha.
  destruct Hx as [-> | Hx], Hy as [-> | Hy]; auto.
  - exfalso. apply Ha. rewrite He. apply in_map, Hy.
  - exfalso. apply Ha. rewrite <- He. apply in_map, Hx.
Qed.

Lemma NoDup_map_filter {A B} (f : A -> B) (p : A -> bool) (l : list A) :
  NoDup (List.map f l) -> NoDup (List.map f (List.filter p l)).
Proof.
  induction l as [|a l IH]; intros Hnd; [exact Hnd|].
  cbn [List.map] in Hnd. apply NoDup_cons in Hnd as [Ha Hl].
  cbn [List.filter]. destruct (p a); [|auto].
  cbn [List.map]. apply NoDup_cons. split; [|auto].
  rewrite list_elem_of_In in *. intros Hin. apply Ha.
  apply in_map_iff in Hin as (y & Hy & Hin). apply filter_In in Hin as [Hin _].
  apply in_map_iff. eauto.
Qed.

Lemma filter_by_key (l : list DocPage) (d : DocPage) :
  NoDup (ids l) -> In d l ->
  List.filter (fun doc => id doc === id d) l = [d].
Proof.
  unfold ids. induction l as [|a l IH]; intros Hnd Hin; [destruct Hin|].
  cbn [List.map] in Hnd. pose proof Hnd as [Ha Hl]%NoDup_cons.
  rewrite list_elem_of_In in Ha. cbn [List.filter].
  destruct (id a === id d) eqn:He.
  - apply eqb_true in He.
    assert (a = d) as -> by (eapply (NoDup_map_eq id (a :: l)); cbn; eauto).
    f_equal. clear IH Hin Hnd.
    induction l as [|b l IH]; [reflexivity|]. cbn [List.filter].
    destruct (id b === id d) eqn:Hb.
    + apply eqb_true in Hb. exfalso. apply Ha. rewrite <- Hb. left. reflexivity.
    + apply IH.
      * intros Hin. apply Ha. right. exact Hin.
      * cbn [List.map] in Hl. apply NoDup_cons in Hl as [_ Hl]. exact Hl.
  - apply eqb_false in He. destruct Hin as [-> | Hin]; [congruence|]. auto.
Qed.

Section SessionFacts.

Variable docs : list DocPage.

Lemma filteredDocs_ids (q : string) (x : string) :
  In x (ids (filteredDocs docs q)) -> In x (ids docs).
Proof.
  unfold ids. rewrite !in_map_iff. intros (d & Hd & Hin).
  apply filteredDocs_In in Hin as [Hin _]. eauto.
Qed.

Lemma filteredDocs_NoDup (q : string) :
  NoDup (ids docs) -> NoDup (ids (filteredDocs docs q)).
Proof.
  intros Hnd. unfold filteredDocs. destruct (_ === ""); [exact Hnd|].
  apply NoDup_map_filter, Hnd.
Qed.

(** The tree rendered for a selection the registry knows: nothing is
    thrown, [docs[0]] is the one array element read, and the record shown
    is the one found. *)
Lemma render_known (st : AppState) :
  In (selectedDocId st) (ids docs) ->
  exists d,
    findById docs (selectedDocId st) = Some d
    /\ inRange (firstRecordRead docs)
    /\ render docs st =
         (Returned
            {| emptyState := length (filteredDocs docs (query st)) =? 0;
               navItems :=
                 List.map (fun doc => {| item := doc;
                                         highlighted := id doc === id d |})
                          (filteredDocs docs (query st));
               themeLabel :=
                 "Switch to "
                   +:+ (if theme st === "light" then "dark" else "light")
                   +:+ " mode";
               moonIcon := theme st === "light";
               markdown := content d |},
          [firstRecordRead docs]).
Proof.
  intros Hin. destruct (findById_In _ _ Hin) as [d Hd]. exists d.
  split; [exact Hd|].
  assert (exists d0 rest, docs = d0 :: rest) as (d0 & rest & Hdocs)
    by (destruct docs; [destruct Hin | eauto]).
  split; [unfold inRange, firstRecordRead; rewrite Hdocs; cbn; lia|].
  unfold render, activeDoc. rewrite Hd.
  assert (arrayGet docs 0 = (Returned (Some d0), [firstRecordRead docs])) as ->
    by (rewrite Hdocs; reflexivity).
  unfold bind at 1. cbn [prop]. rewrite !bind_ret_l. cbn [prop].
  rewrite (mapEff_ext _ (fun doc => ret {| item := doc;
                                           highlighted := id doc === id d |}))
    by (intros doc; rewrite bind_ret_l; reflexivity).
  rewrite mapEff_pure, !bind_ret_l. reflexivity.
Qed.

End SessionFacts.

Lemma initialTheme_not_empty (h : Host) : initialTheme h <> "".
Proof.
  unfold initialTheme. destruct (localStorage h !! "theme") as [s|].
  - destruct (s === "") eqn:He; [|apply eqb_false, He].
    destruct (prefersDark h); discriminate.
  - destruct (prefersDark h); discriminate.
Qed.

Lemma applyTheme_inSync (st : AppState) (h : Host) :
  theme st <> "" -> themeInSync (st, applyTheme st h).
Proof.
  intros Hne. unfold themeInSync. cbn [fst snd].
  auto using applyTheme_stored, applyTheme_class.
Qed.

Lemma toggleTheme_light_or_dark (st : AppState) :
  theme (toggleTheme st) = "light" \/ theme (toggleTheme st) = "dark".
Proof. unfold toggleTheme. cbn [theme]. destruct (theme st === "light"); auto. Qed.

(** The first render of a registry with a first record. *)
Lemma mount_first (d : DocPage) (rest : list DocPage) (h : Host) :
  let st0 := {| selectedDocId := id d; query := ""; theme := initialTheme h |} in
  mount (d :: rest) h =
    (Returned (st0, applyTheme st0 h),
     [{| arrayLength := S (length rest); readIndex := 0 |}]).
Proof.
  cbv zeta. unfold mount, article, activeDoc, findById.
  cbn [arrayGet lookup list_lookup length bind prop ret List.find id selectedDocId].
  rewrite String.eqb_refl. cbn [bind prop ret].
  rewrite repairSelection_unfold. cbn [query selectedDocId theme].
  change (filteredDocs (d :: rest) "") with (d :: rest).
  cbn [existsb]. rewrite String.eqb_refl. reflexivity.
Qed.

Lemma bind_steps {A B} (m : Eff A) (k : A -> Eff B)
    (a : A) (r : list IndexRead) (b : B) (r' : list IndexRead) :
  m = (Returned a, r) -> k a = (Returned b, r') ->
  bind m k = (Returned b, r ++ r').
Proof. intros -> Hk. unfold bind. rewrite Hk. reflexivity. Qed.

Lemma Forall_single {A} (P : A -> Prop) (x : A) : P x -> Forall P [x].
Proof. intros H. constructor; [exact H | constructor]. Qed.

Lemma classic_click (actions : list Action) :
  In ClickThemeButton actions \/ ~ In ClickThemeButton actions.
Proof.
  induction actions as [|a rest [IH | IH]]; [right; intros []| left; right; exact IH|].
  destruct a; [right | right | left; left; reflexivity];
    intros [H | H]; [discriminate | contradiction | discriminate | contradiction].
Qed.

Section SessionInvariants.

Variable docs : list DocPage.

Lemma repairSelection_settles (st : AppState) :
  In (selectedDocId st) (ids docs) ->
  exists st' reads,
    repairSelection docs st = (Returned st', reads)
    /\ Forall inRange reads
    /\ settled docs st'
    /\ query st' = query st
    /\ theme st' = theme st.
Proof.
  intros Hin. rewrite repairSelection_unfold. unfold settled.
  destruct (filteredDocs docs (query st)) as [|d rest] eqn:Hf.
  - exists st, []. rewrite Hf. repeat split; auto.
  - destruct (existsb _ (d :: rest)) eqn:Hv.
    + apply stillVisible_In in Hv.
      exists st, []. rewrite Hf. repeat split; auto.
    + do 2 eexists. split; [reflexivity|]. cbn [query theme selectedDocId].
      rewrite Hf. repeat split; [read_in_range | | right; left; reflexivity].
      apply (filteredDocs_ids docs (query st)). rewrite Hf. left. reflexivity.
Qed.

(** One action on a settled state with its theme in sync. *)
Lemma act_invariant (a : Action) (st : AppState) (h : Host) :
  settled docs st ->
  themeInSync (st, h) ->
  exists st' h' reads,
    act docs a (st, h) = (Returned (st', h'), reads)
    /\ Forall inRange reads
    /\ settled docs st'
    /\ themeInSync (st', h')
    /\ prefersDark h' = prefersDark h
    /\ (a = ClickThemeButton ->
        theme st' <> theme st /\ (theme st' = "light" \/ theme st' = "dark"))
    /\ (a <> ClickThemeButton -> theme st' = theme st).
Proof.
  intros [Hid Hshown] Hsync. destruct a as [text | i |]; cbn [act].
  - unfold setQuery.
    set (st1 := {| selectedDocId := selectedDocId st; query := text;
                   theme := theme st |}).
    destruct (render_known docs st1 Hid) as (d & _ & Hr0 & Hrender1).
    destruct (repairSelection_settles st1 Hid)
      as (st' & reads & Hrun & Hr & Hs & Hq & Ht).
    destruct (render_known docs st' (proj1 Hs)) as (d' & _ & _ & Hrender2).
    exists st', h, ([firstRecordRead docs] ++ reads ++ [firstRecordRead docs] ++ []).
    split; [eapply bind_steps; [exact Hrender1|];
            eapply bind_steps; [exact Hrun|];
            eapply bind_steps; [exact Hrender2 | reflexivity]|].
    split; [auto using Forall_app_2, Forall_single|].
    split; [exact Hs|]. cbn [theme st1] in Ht.
    split; [unfold themeInSync in *; cbn [fst snd] in *; rewrite Ht; exact Hsync|].
    split; [reflexivity|]. split; [discriminate | intros _; exact Ht].
  - destruct (filteredDocs docs (query st) !! i) as [doc|] eqn:Hi.
    + assert (In (id doc) (ids (filteredDocs docs (query st)))) as Hdoc.
      { apply in_map, list_elem_of_In, list_elem_of_lookup. eauto. }
      pose proof (filteredDocs_ids docs _ _ Hdoc) as Hdoc'.
      unfold selectDoc.
      set (st1 := {| selectedDocId := id doc; query := query st;
                     theme := theme st |}).
      destruct (render_known docs st1 Hdoc') as (d & _ & Hr0 & Hrender1).
      destruct (repairSelection_settles st1 Hdoc')
        as (st' & reads & Hrun & Hr & Hs & Hq & Ht).
      destruct (render_known docs st' (proj1 Hs)) as (d' & _ & _ & Hrender2).
      exists st', h, ([firstRecordRead docs] ++ reads ++ [firstRecordRead docs] ++ []).
      split; [eapply bind_steps; [exact Hrender1|];
              eapply bind_steps; [exact Hrun|];
              eapply bind_steps; [exact Hrender2 | reflexivity]|].
      split; [auto using Forall_app_2, Forall_single|].
      split; [exact Hs|]. cbn [theme st1] in Ht.
      split; [unfold themeInSync in *; cbn [fst snd] in *; rewrite Ht; exact Hsync|].
      split; [reflexivity|]. split; [discriminate | intros _; exact Ht].
    + exists st, h, []. unfold ret. repeat split; auto; try apply Hsync.
      discriminate.
  - destruct (render_known docs (toggleTheme st) Hid) as (d & _ & Hr0 & Hrender).
    unfold clickTheme. cbn [fst snd].
    exists (toggleTheme st), (applyTheme (toggleTheme st) h),
      ([firstRecordRead docs] ++ []).
    split; [eapply bind_steps; [exact Hrender | reflexivity]|].
    pose proof (toggleTheme_light_or_dark st) as Hld.
    assert (theme (toggleTheme st) <> "") as Hne
      by (destruct Hld as [-> | ->]; discriminate).
    split; [auto using Forall_app_2, Forall_single|]. split; [split; assumption|].
    split; [apply applyTheme_inSync, Hne|]. split; [reflexivity|].
    split; [intros _; split; [apply toggleTheme_changes | exact Hld]|].
    intros Hc. contradiction.
Qed.

Lemma session_invariant (actions : list Action) (st : AppState) (h : Host) :
  settled docs st ->
  themeInSync (st, h) ->
  exists st' h' reads,
    session docs actions (st, h) = (Returned (st', h'), reads)
    /\ Forall inRange reads
    /\ settled docs st'
    /\ themeInSync (st', h')
    /\ prefersDark h' = prefersDark h
    /\ (In ClickThemeButton actions -> theme st' = "light" \/ theme st' = "dark")
    /\ (~ In ClickThemeButton actions -> theme st' = theme st).
Proof.
  revert st h. induction actions as [|a rest IH]; intros st h Hs Ht.
  - exists st, h, []. cbn [session]. unfold ret.
    split; [reflexivity|]. split; [constructor|]. split; [exact Hs|].
    split; [exact Ht|]. split; [reflexivity|]. split; [intros [] | reflexivity].
  - destruct (act_invariant a st h Hs Ht)
      as (st1 & h1 & r1 & Hact & Hr1 & Hs1 & Ht1 & Hp1 & Hclick & Hother).
    destruct (IH st1 h1 Hs1 Ht1)
      as (st2 & h2 & r2 & Hrest & Hr2 & Hs2 & Ht2 & Hp2 & Hin & Hnot).
    exists st2, h2, (r1 ++ r2). cbn [session].
    rewrite (bind_Returned _ _ _ _ Hact), Hrest. cbn [fst snd].
    split; [reflexivity|]. split; [apply Forall_app; auto|].
    split; [exact Hs2|]. split; [exact Ht2|]. split; [congruence|]. split.
    + intros [-> | Hin'].
      * destruct (classic_click rest) as [Hc | Hc]; [auto|].
        rewrite (Hnot Hc). apply Hclick. reflexivity.
      * auto.
    + intros Hno. rewrite Hnot, Hother; [reflexivity | |].
      * intros ->. apply Hno. left. reflexivity.
      * intros Hin'. apply Hno. right. exact Hin'.
Qed.

End SessionInvariants.

(** Everything a visit keeps, in one statement. *)
Lemma visit_invariant (docs : list DocPage) (h : Host) (actions : list Action) :
  docs <> [] ->
  exists st' h' reads,
    visit docs h actions = (Returned (st', h'), reads)
    /\ Forall inRange reads
    /\ settled docs st'
    /\ themeInSync (st', h')
    /\ prefersDark h' = prefersDark h
    /\ (In ClickThemeButton actions -> theme st' = "light" \/ theme st' = "dark")
    /\ (~ In ClickThemeButton actions -> theme st' = initialTheme h).
Proof.
  intros Hne. destruct docs as [|d rest]; [contradiction|].
  unfold visit. pose proof (mount_first d rest h) as Hm. cbv zeta in Hm.
  set (st0 := {| selectedDocId := id d; query := ""; theme := initialTheme h |}) in *.
  assert (settled (d :: rest) st0) as Hs.
  { unfold settled. cbn [selectedDocId query ids List.map st0].
    change (filteredDocs (d :: rest) "") with (d :: rest).
    split; [left; reflexivity | right; left; reflexivity]. }
  assert (themeInSync (st0, applyTheme st0 h)) as Ht
    by (apply applyTheme_inSync, initialTheme_not_empty).
  destruct (session_invariant (d :: rest) actions st0 (applyTheme st0 h) Hs Ht)
    as (st' & h' & reads & Hrun & Hr & Hs' & Ht' & Hp & Hin & Hnot).
  exists st', h', ([{| arrayLength := S (length rest); readIndex := 0 |}] ++ reads).
  rewrite (bind_Returned _ _ _ _ Hm), Hrun. cbn [fst snd].
  split; [reflexivity|]. split; [apply Forall_app; split; [read_in_range | exact Hr]|].
  auto.
Qed.

(** X8. The selection stays valid for the whole visit.  With at least one
    record in the registry, opening the page and then typing in the
    search box, clicking sidebar buttons and clicking the theme button,
    in any order and number, never throws and never reads an array out
    of range; at the end the selected id is a registry id, it is among
    the records shown unless none is shown, and the active document is
    the record found for it, so the fallback to [docs[0]] is not used. *)
Theorem visit_keeps_selection_valid (docs : list DocPage) (h : Host)
    (actions : list Action) :
  docs <> [] ->
  exists st' h' reads,
    visit docs h actions = (Returned (st', h'), reads)
    /\ Forall inRange reads
    /\ In (selectedDocId st') (ids docs)
    /\ (filteredDocs docs (query st') = []
        \/ In (selectedDocId st') (ids (filteredDocs docs (query st'))))
    /\ exists d, activeDoc docs st' = (Returned (Some d), [])
                 /\ id d = selectedDocId st'.
Proof.
  intros Hne.
  destruct (visit_invariant docs h actions Hne)
    as (st' & h' & reads & Hv & Hr & [Hid Hshown] & _).
  exists st', h', reads. repeat split; auto.
  destruct (findById_In _ _ Hid) as [d Hd]. exists d.
  unfold activeDoc. rewrite Hd. split; [reflexivity|].
  apply findById_Some in Hd. apply Hd.
Qed.

(** A visit of the book: a search, a click, a search without a match, a
    click on a button that is not there, the search box cleared. *)
Example visit_keeps_selection_valid_witness :
  exists st' h' reads,
    visit (Content.docs noText)
          {| localStorage := ∅; classList := ∅; prefersDark := true |}
          [TypeQuery "ref"; ClickItem 1; TypeQuery "zzz"; ClickThemeButton;
           ClickItem 0; TypeQuery ""]
    = (Returned (st', h'), reads)
    /\ Forall inRange reads
    /\ In (selectedDocId st') (ids (Content.docs noText))
    /\ (filteredDocs (Content.docs noText) (query st') = []
        \/ In (selectedDocId st')
              (ids (filteredDocs (Content.docs noText) (query st'))))
    /\ exists d, activeDoc (Content.docs noText) st' = (Returned (Some d), [])
                 /\ id d = selectedDocId st'.
Proof.
  apply visit_keeps_selection_valid. discriminate.
Defined.

(** X9. The theme stays in sync for the whole visit.  With at least one
    record in the registry, at the end of any visit the value stored
    under [theme] is the theme in memory, the theme is not the empty
    string, and the root element carries the class [dark] exactly when
    the theme is [dark]; the system preference is never written.  Once
    the theme button was clicked the theme is [light] or [dark], whatever
    was stored before; until then it is the initial one. *)
Theorem visit_keeps_theme_in_sync (docs : list DocPage) (h : Host)
    (actions : list Action) :
  docs <> [] ->
  exists st' h' reads,
    visit docs h actions = (Returned (st', h'), reads)
    /\ localStorage h' !! "theme" = Some (theme st')
    /\ theme st' <> ""
    /\ ("dark" ∈ classList h' <-> theme st' = "dark")
    /\ prefersDark h' = prefersDark h
    /\ (In ClickThemeButton actions -> theme st' = "light" \/ theme st' = "dark")
    /\ (~ In ClickThemeButton actions -> theme st' = initialTheme h).
Proof.
  intros Hne.
  destruct (visit_invariant docs h actions Hne)
    as (st' & h' & reads & Hv & _ & _ & (Hst & Hnot & Hcl) & Hp & Hin & Hno).
  exists st', h', reads. cbn [fst snd] in *. auto 10.
Qed.

(** A stored value that is no theme: it is kept until the first click. *)
Example visit_keeps_theme_in_sync_witness :
  let h := {| localStorage := {["theme" := "blue"]}; classList := ∅;
              prefersDark := true |} in
  (exists st' h' reads,
      visit (Content.docs noText) h [TypeQuery "x"] = (Returned (st', h'), reads)
      /\ theme st' = "blue")
  /\ (exists st' h' reads,
         visit (Content.docs noText) h [TypeQuery "x"; ClickThemeButton]
         = (Returned (st', h'), reads)
         /\ localStorage h' !! "theme" = Some (theme st')
         /\ (theme st' = "light" \/ theme st' = "dark")).
Proof.
  cbv zeta. split.
  - destruct (visit_keeps_theme_in_sync (Content.docs noText)
                {| localStorage := {["theme" := "blue"]}; classList := ∅;
                   prefersDark := true |} [TypeQuery "x"])
      as (st' & h' & reads & Hv & _ & _ & _ & _ & _ & Hno); [discriminate|].
    exists st', h', reads. split; [exact Hv|]. rewrite Hno; [reflexivity|].
    cbn. intuition discriminate.
  - destruct (visit_keeps_theme_in_sync (Content.docs noText)
                {| localStorage := {["theme" := "blue"]}; classList := ∅;
                   prefersDark := true |} [TypeQuery "x"; ClickThemeButton])
      as (st' & h' & reads & Hv & Hst & _ & _ & _ & Hin & _); [discriminate|].
    exists st', h', reads. split; [exact Hv|]. split; [exact Hst|].
    apply Hin. cbn. tauto.
Defined.

(** X10. A reload keeps the theme and nothing else.  With at least one
    record in the registry, the page opened again on the storage a visit
    left behind starts with the theme the visit ended with, whatever the
    system preference has become and whatever classes the new root
    element carries; the query is empty again and the selection is the
    first record again. *)
Theorem reload_keeps_theme (docs : list DocPage) (h : Host)
    (actions : list Action) (classes : gset string) (dark : bool) :
  docs <> [] ->
  exists st' h' st'' h'',
    fst (visit docs h actions) = Returned (st', h')
    /\ fst (mount docs {| localStorage := localStorage h';
                          classList := classes;
                          prefersDark := dark |}) = Returned (st'', h'')
    /\ theme st'' = theme st'
    /\ query st'' = ""
    /\ Some (selectedDocId st'') = id <$> head docs.
Proof.
  intros Hne.
  destruct (visit_invariant docs h actions Hne)
    as (st' & h' & reads & Hv & _ & _ & (Hst & Hnot & _) & _).
  cbn [fst snd] in Hst, Hnot.
  destruct docs as [|d rest]; [contradiction|].
  pose proof (mount_first d rest {| localStorage := localStorage h';
                                    classList := classes;
                                    prefersDark := dark |}) as Hm.
  cbv zeta in Hm.
  do 4 eexists. rewrite Hv, Hm. cbn [fst theme query selectedDocId].
  split; [reflexivity|]. split; [reflexivity|]. split; [|auto].
  unfold initialTheme. cbn [localStorage prefersDark].
  rewrite Hst. apply eqb_false in Hnot. rewrite Hnot. reflexivity.
Qed.

(** The dark theme chosen by a click survives a reload on a system that
    prefers light. *)
Example reload_keeps_theme_witness :
  exists st' h' st'' h'',
    fst (visit (Content.docs noText)
               {| localStorage := ∅; classList := ∅; prefersDark := false |}
               [TypeQuery "jinja"; ClickThemeButton])
    = Returned (st', h')
    /\ theme st' = "dark"
    /\ fst (mount (Content.docs noText)
                  {| localStorage := localStorage h'; classList := ∅;
                     prefersDark := false |})
       = Returned (st'', h'')
    /\ theme st'' = "dark".
Proof.
  destruct (reload_keeps_theme (Content.docs noText)
              {| localStorage := ∅; classList := ∅; prefersDark := false |}
              [TypeQuery "jinja"; ClickThemeButton] ∅ false)
    as (st' & h' & st'' & h'' & Hv & Hm & Ht & _); [discriminate|].
  exists st', h', st'', h''.
  assert (theme st' = "dark") as Hd.
  { vm_compute in Hv. injection Hv as <- _. reflexivity. }
  rewrite Ht. auto.
Defined.

(** * What is rendered *)

Lemma filter_highlighted (key : string) (l : list DocPage) :
  List.filter highlighted
    (List.map (fun doc => {| item := doc; highlighted := id doc === key |}) l)
  = List.map (fun doc => {| item := doc; highlighted := true |})
      (List.filter (fun doc => id doc === key) l).
Proof.
  induction l as [|a l IH]; [reflexivity|].
  cbn [List.map List.filter highlighted].
  destruct (id a === key) eqn:He; cbn [List.map]; rewrite IH; reflexivity.
Qed.

(** X11. One button is highlighted, and it is the one of the article.
    With unique ids, when the selected id is among the records shown the
    render throws nothing and reads one array element, [docs[0]], in
    range; the sidebar shows the filtered records in order, exactly one
    of its buttons is highlighted, the one of the selected record, the
    text handed to the markdown renderer is that record's content, and
    the empty-state line is not shown. *)
Theorem render_highlights_selection (docs : list DocPage) (st : AppState) :
  NoDup (ids docs) ->
  In (selectedDocId st) (ids (filteredDocs docs (query st))) ->
  exists v d,
    render docs st = (Returned v, [firstRecordRead docs])
    /\ inRange (firstRecordRead docs)
    /\ In d (filteredDocs docs (query st))
    /\ id d = selectedDocId st
    /\ List.map item (navItems v) = filteredDocs docs (query st)
    /\ List.filter highlighted (navItems v) = [{| item := d; highlighted := true |}]
    /\ markdown v = content d
    /\ emptyState v = false.
Proof.
  intros Hnd Hsel.
  pose proof (filteredDocs_ids docs _ _ Hsel) as Hid.
  destruct (render_known docs st Hid) as (d & Hd & Hr0 & ->).
  pose proof (findById_Some _ _ _ Hd) as [Hin Hkey].
  assert (In d (filteredDocs docs (query st))) as Hshown.
  { apply in_map_iff in Hsel as (d' & Hkey' & Hin').
    assert (d' = d) as <-; [|exact Hin'].
    apply (NoDup_map_eq id docs); auto; [|congruence].
    apply filteredDocs_In in Hin'. apply Hin'. }
  do 2 eexists. split; [reflexivity|]. cbn [navItems markdown emptyState].
  split; [exact Hr0|].
  split; [exact Hshown|]. split; [exact Hkey|]. split; [|split; [|split]].
  - rewrite List.map_map. cbn [item]. apply List.map_id.
  - rewrite filter_highlighted.
    rewrite (filter_by_key _ d (filteredDocs_NoDup docs (query st) Hnd) Hshown).
    reflexivity.
  - reflexivity.
  - destruct (filteredDocs docs (query st)); [destruct Hshown | reflexivity].
Qed.

(** The tutorial, selected and shown for the query "guide". *)
Example render_highlights_selection_witness :
  exists v d,
    render (Content.docs noText)
           {| selectedDocId := "tutorial"; query := "guide"; theme := "light" |}
    = (Returned v, [{| arrayLength := 8; readIndex := 0 |}])
    /\ id d = "tutorial"
    /\ List.map (fun n => id (item n)) (navItems v) = ["tutorial"; "developers"]
    /\ List.filter highlighted (navItems v) = [{| item := d; highlighted := true |}].
Proof.
  destruct (render_highlights_selection (Content.docs noText)
              {| selectedDocId := "tutorial"; query := "guide"; theme := "light" |})
    as (v & d & Hv & _ & _ & Hid & Hnav & Hone & _).
  - apply docs_ids_unique.
  - vm_compute. tauto.
  - exists v, d. split; [exact Hv|]. split; [exact Hid|]. split; [|exact Hone].
    rewrite <- (List.map_map item id), Hnav. reflexivity.
Defined.

(** X12. A search without a match leaves the article in place.  With
    unique ids, when the text typed matches no record and the selected id
    is a registry id, [setQuery] keeps the selection, reads no array and
    throws nothing; the render that follows throws nothing, reads
    [docs[0]] and nothing else, shows the empty-state line and no button,
    and still hands the content of the selected record to the markdown
    renderer. *)
Theorem no_match_keeps_article (docs : list DocPage) (text : string) (st : AppState) :
  NoDup (ids docs) ->
  In (selectedDocId st) (ids docs) ->
  filteredDocs docs text = [] ->
  exists st' v d,
    setQuery docs text st = (Returned st', [])
    /\ selectedDocId st' = selectedDocId st
    /\ query st' = text
    /\ render docs st' = (Returned v, [firstRecordRead docs])
    /\ inRange (firstRecordRead docs)
    /\ emptyState v = true
    /\ navItems v = []
    /\ findById docs (selectedDocId st) = Some d
    /\ In d docs
    /\ markdown v = content d.
Proof.
  intros Hnd Hid Hnone.
  set (st1 := {| selectedDocId := selectedDocId st; query := text;
                 theme := theme st |}).
  destruct (render_known docs st1 Hid) as (d & Hd & Hr0 & Hrender).
  eexists st1, _, d.
  unfold setQuery. fold st1. rewrite repairSelection_unfold.
  cbn [query st1]. fold st1. rewrite Hnone.
  rewrite Hrender. cbn [query st1]. rewrite Hnone.
  repeat split; auto. apply findById_Some in Hd. apply Hd.
Qed.

(** The query of specification example 4. *)
Example no_match_keeps_article_witness :
  exists st' v d,
    setQuery (Content.docs noText) "zzz-no-match"
             {| selectedDocId := "examples"; query := "ex"; theme := "dark" |}
    = (Returned st', [])
    /\ selectedDocId st' = "examples"
    /\ render (Content.docs noText) st'
       = (Returned v, [{| arrayLength := 8; readIndex := 0 |}])
    /\ emptyState v = true
    /\ navItems v = []
    /\ id d = "examples"
    /\ markdown v = content d.
Proof.
  destruct (no_match_keeps_article (Content.docs noText) "zzz-no-match"
              {| selectedDocId := "examples"; query := "ex"; theme := "dark" |})
    as (st' & v & d & Hset & Hsel & _ & Hrender & _ & Hempty & Hnav & Hd & _ & Hmd).
  - apply docs_ids_unique.
  - vm_compute. tauto.
  - reflexivity.
  - exists st', v, d. repeat split; auto.
    apply findById_Some in Hd. apply Hd.
Defined.

(** X13. A click on a sidebar button selects its record.  With unique
    ids, a click on the [i]-th button shown makes the id of its record the
    selected id and that record the active document; the query, the theme
    and the host are left alone, nothing is thrown, every array read of
    the renders that follow is in range, and the selection effect has
    nothing to repair.  Where no [i]-th button is shown, nothing changes
    and nothing is rendered. *)
Theorem click_selects (docs : list DocPage) (st : AppState) (h : Host) (i : nat) :
  NoDup (ids docs) ->
  (forall doc, filteredDocs docs (query st) !! i = Some doc ->
     let st' := {| selectedDocId := id doc; query := query st; theme := theme st |} in
     (exists reads, act docs (ClickItem i) (st, h) = (Returned (st', h), reads)
                    /\ Forall inRange reads)
     /\ activeDoc docs st' = (Returned (Some doc), [])
     /\ repairSelection docs st' = (Returned st', []))
  /\ (filteredDocs docs (query st) !! i = None ->
      act docs (ClickItem i) (st, h) = (Returned (st, h), [])).
Proof.
  intros Hnd. split.
  - intros doc Hi. cbv zeta.
    set (st1 := {| selectedDocId := id doc; query := query st; theme := theme st |}).
    assert (In doc (filteredDocs docs (query st))) as Hshown
      by (apply list_elem_of_In, list_elem_of_lookup; eauto).
    assert (In doc docs) as Hin
      by (apply filteredDocs_In in Hshown; apply Hshown).
    assert (In (id doc) (ids docs)) as Hid by (apply in_map, Hin).
    assert (repairSelection docs st1 = (Returned st1, [])) as Hrepair.
    { rewrite repairSelection_unfold. cbn [query selectedDocId st1].
      destruct (filteredDocs docs (query st)) as [|d rest] eqn:Hf; [destruct Hshown|].
      assert (existsb (fun doc0 => id doc0 === id doc) (d :: rest) = true) as ->
        by (apply stillVisible_In, in_map, Hshown).
      reflexivity. }
    destruct (render_known docs st1 Hid) as (d & _ & Hr0 & Hrender).
    split; [|split; [|exact Hrepair]].
    + exists ([firstRecordRead docs] ++ [] ++ [firstRecordRead docs] ++ []).
      split; [|auto using Forall_app_2, Forall_single].
      cbn [act]. rewrite Hi. fold st1. unfold selectDoc. fold st1.
      eapply bind_steps; [exact Hrender|].
      eapply bind_steps; [exact Hrepair|].
      eapply bind_steps; [exact Hrender | reflexivity].
    + unfold activeDoc. cbn [selectedDocId st1].
      rewrite (findById_unique docs doc Hnd Hin). reflexivity.
  - intros Hi. cbn [act]. rewrite Hi. reflexivity.
Qed.

(** The second button of the list shown for "ref". *)
Example click_selects_witness :
  let st := {| selectedDocId := "language-reference"; query := "ref";
               theme := "light" |} in
  let h := {| localStorage := ∅; classList := ∅; prefersDark := false |} in
  (exists st' reads,
      act (Content.docs noText) (ClickItem 1) (st, h) = (Returned (st', h), reads)
      /\ selectedDocId st' = "functions-reference")
  /\ act (Content.docs noText) (ClickItem 2) (st, h) = (Returned (st, h), []).
Proof.
  cbv zeta.
  destruct (click_selects (Content.docs noText)
              {| selectedDocId := "language-reference"; query := "ref";
                 theme := "light" |}
              {| localStorage := ∅; classList := ∅; prefersDark := false |} 1
              (docs_ids_unique noText)) as (Hclick & _).
  destruct (click_selects (Content.docs noText)
              {| selectedDocId := "language-reference"; query := "ref";
                 theme := "light" |}
              {| localStorage := ∅; classList := ∅; prefersDark := false |} 2
              (docs_ids_unique noText)) as (_ & Hnone).
  split.
  - destruct (Hclick {| id := "functions-reference";
                        title := "Functions Reference";
                        description := "Complete reference of all available functions and operators";
                        content := "" |} eq_refl) as ((reads & Hact & _) & _).
    eexists _, reads. split; [exact Hact | reflexivity].
  - apply Hnone. reflexivity.
Defined.

(** * Further properties of the search *)

Lemma lowerChar_isTrimmed (c : ascii) : JS.isTrimmed (JS.lowerChar c) = JS.isTrimmed c.
Proof. destruct c as [[|] [|] [|] [|] [|] [|] [|] [|]]; reflexivity. Qed.

Lemma lowerChar_idempotent (c : ascii) : JS.lowerChar (JS.lowerChar c) = JS.lowerChar c.
Proof. destruct c as [[|] [|] [|] [|] [|] [|] [|] [|]]; reflexivity. Qed.

Lemma toLowerCase_idempotent (s : string) :
  JS.toLowerCase (JS.toLowerCase s) = JS.toLowerCase s.
Proof.
  induction s as [|c s IH]; [reflexivity|].
  cbn [JS.toLowerCase]. rewrite lowerChar_idempotent, IH. reflexivity.
Qed.

Lemma toLowerCase_empty (s : string) : (JS.toLowerCase s === "") = (s === "").
Proof. destruct s; reflexivity. Qed.

Lemma toLowerCase_app (a b : string) :
  JS.toLowerCase (a +:+ b) = JS.toLowerCase a +:+ JS.toLowerCase b.
Proof. induction a as [|c a IH]; [reflexivity|]. cbn. rewrite IH. reflexivity. Qed.

Lemma toLowerCase_trimStart (s : string) :
  JS.toLowerCase (JS.trimStart s) = JS.trimStart (JS.toLowerCase s).
Proof.
  induction s as [|c s IH]; [reflexivity|].
  cbn [JS.trimStart JS.toLowerCase]. rewrite lowerChar_isTrimmed.
  destruct (JS.isTrimmed c); [exact IH | reflexivity].
Qed.

Lemma toLowerCase_trimEnd (s : string) :
  JS.toLowerCase (JS.trimEnd s) = JS.trimEnd (JS.toLowerCase s).
Proof.
  induction s as [|c s IH]; [reflexivity|].
  cbn [JS.trimEnd JS.toLowerCase].
  rewrite lowerChar_isTrimmed, <- IH, toLowerCase_empty.
  destruct (JS.isTrimmed c && (JS.trimEnd s === "")); reflexivity.
Qed.

Lemma toLowerCase_trim (s : string) :
  JS.toLowerCase (JS.trim s) = JS.trim (JS.toLowerCase s).
Proof. unfold JS.trim. rewrite toLowerCase_trimEnd, toLowerCase_trimStart. reflexivity. Qed.

Lemma trimEnd_idempotent (s : string) : JS.trimEnd (JS.trimEnd s) = JS.trimEnd s.
Proof.
  induction s as [|c s IH]; [reflexivity|]. cbn [JS.trimEnd].
  destruct (JS.isTrimmed c && (JS.trimEnd s === "")) eqn:He; [reflexivity|].
  cbn [JS.trimEnd]. rewrite IH, He. reflexivity.
Qed.

(** A string that does not start with a blank keeps its start when its
    end is trimmed. *)
Lemma trimStart_trimEnd (s : string) :
  JS.trimStart (JS.trimEnd (JS.trimStart s)) = JS.trimEnd (JS.trimStart s).
Proof.
  induction s as [|c s IH]; [reflexivity|]. cbn [JS.trimStart].
  destruct (JS.isTrimmed c) eqn:Hc; [exact IH|].
  cbn [JS.trimEnd]. rewrite Hc. cbn [andb JS.trimStart]. rewrite Hc. reflexivity.
Qed.

Lemma trim_idempotent (s : string) : JS.trim (JS.trim s) = JS.trim s.
Proof. unfold JS.trim. rewrite trimStart_trimEnd, trimEnd_idempotent. reflexivity. Qed.

(** X14. The search does not see letter case or outer blanks in the
    query: two queries with the same lower-case form list the same
    records, and so do a query, its lower-case form and its trimmed
    form. *)
Theorem search_ignores_case_and_outer_blanks (docs : list DocPage) (q : string) :
  (forall q', JS.toLowerCase q' = JS.toLowerCase q ->
     filteredDocs docs q' = filteredDocs docs q)
  /\ filteredDocs docs (JS.toLowerCase q) = filteredDocs docs q
  /\ filteredDocs docs (JS.trim q) = filteredDocs docs q.
Proof.
  assert (forall q', JS.toLowerCase q' = JS.toLowerCase q ->
            filteredDocs docs q' = filteredDocs docs q) as Hcase.
  { intros q' He. unfold filteredDocs. rewrite !toLowerCase_trim, He. reflexivity. }
  split; [exact Hcase|]. split.
  - apply Hcase, toLowerCase_idempotent.
  - unfold filteredDocs. rewrite trim_idempotent. reflexivity.
Qed.

(** Three spellings of one query. *)
Example search_ignores_case_and_outer_blanks_witness :
  filteredDocs (Content.docs noText) "JINJA2" = filteredDocs (Content.docs noText) "jinja2"
  /\ filteredDocs (Content.docs noText) (JS.trim "  jinja2 ")
     = filteredDocs (Content.docs noText) "  jinja2 "
  /\ List.map id (filteredDocs (Content.docs noText) "  jinja2 ") = ["jinja2-templating"].
Proof.
  destruct (search_ignores_case_and_outer_blanks (Content.docs noText) "jinja2")
    as (Hcase & _).
  destruct (search_ignores_case_and_outer_blanks (Content.docs noText) "  jinja2 ")
    as (_ & _ & Htrim).
  split; [apply Hcase; reflexivity|]. split; [exact Htrim | reflexivity].
Defined.

Lemma startsWith_shorter (s q rest : string) :
  JS.startsWith s (q +:+ rest) = true -> JS.startsWith s q = true.
Proof.
  revert s. induction q as [|c q IH]; intros s H; [reflexivity|].
  cbn in H |- *. destruct s as [|a s]; [discriminate|].
  apply andb_true_iff in H as [-> H]. apply IH, H.
Qed.

Lemma includes_shorter (s q rest : string) :
  JS.includes s (q +:+ rest) = true -> JS.includes s q = true.
Proof.
  induction s as [|a s IH]; cbn [JS.includes]; rewrite !orb_true_iff.
  - intros [H | H]; [left; eapply startsWith_shorter, H | discriminate].
  - intros [H | H]; [left; eapply startsWith_shorter, H | right; auto].
Qed.

Lemma trimStart_app (q more : string) :
  JS.trimStart q <> "" -> JS.trimStart (q +:+ more) = JS.trimStart q +:+ more.
Proof.
  induction q as [|c q IH]; intros Hne; [contradiction|].
  cbn [JS.trimStart String.append] in *.
  destruct (JS.isTrimmed c); [apply IH, Hne | reflexivity].
Qed.

Lemma trimEnd_app_prefix (t more : string) :
  isPrefix (JS.trimEnd t) (JS.trimEnd (t +:+ more)).
Proof.
  induction t as [|c t [rest IH]]; [exists (JS.trimEnd more); reflexivity|].
  cbn [JS.trimEnd String.append].
  destruct (JS.isTrimmed c && (JS.trimEnd t === "")) eqn:He.
  - eexists. reflexivity.
  - assert (JS.isTrimmed c && (JS.trimEnd (t +:+ more) === "") = false) as ->.
    { apply andb_false_iff in He as [Hc | Ht]; [rewrite Hc; reflexivity|].
      apply andb_false_iff. right. apply eqb_false. apply eqb_false in Ht.
      rewrite IH. destruct (JS.trimEnd t); [contradiction | discriminate]. }
    exists rest. rewrite IH. reflexivity.
Qed.

Lemma trim_app_prefix (q more : string) :
  isPrefix (JS.trim q) (JS.trim (q +:+ more)).
Proof.
  unfold JS.trim. destruct (JS.trimStart q) as [|c t] eqn:Hq.
  - eexists. reflexivity.
  - rewrite trimStart_app by (rewrite Hq; discriminate).
    rewrite Hq. apply trimEnd_app_prefix.
Qed.

Lemma filter_sublist_impl {A} (p1 p2 : A -> bool) (l : list A) :
  (forall x, p2 x = true -> p1 x = true) ->
  sublist (List.filter p2 l) (List.filter p1 l).
Proof.
  intros Himpl. induction l as [|a l IH]; [constructor|].
  cbn [List.filter]. destruct (p2 a) eqn:H2.
  - rewrite (Himpl a H2). constructor. exact IH.
  - destruct (p1 a); [constructor|]; exact IH.
Qed.

(** X15. Typing on narrows the list, for strings of code units below
    U+0100 (registry and query alike), where lower-casing works code unit
    by code unit: for every such query and every such text added at its
    end, the records shown for the longer query are a subsequence of the
    records shown for the shorter one (and deleting from the end of a
    query only widens the list). *)
Theorem search_narrows (docs : list DocPage) (q more : string) :
  sublist (filteredDocs docs (q +:+ more)) (filteredDocs docs q).
Proof.
  destruct (trim_app_prefix q more) as [rest Hp].
  unfold filteredDocs. rewrite Hp, toLowerCase_app.
  destruct (JS.toLowerCase (JS.trim q)) as [|c a] eqn:Ha.
  - cbn [String.append String.eqb].
    destruct (JS.toLowerCase rest === ""); [reflexivity | apply filter_sublist].
  - cbn [String.append String.eqb].
    apply filter_sublist_impl. intros d Hd.
    apply orb_true_iff in Hd as [Hd | Hd]; apply orb_true_iff; [left | right];
      apply (includes_shorter _ (String c a) (JS.toLowerCase rest)), Hd.
Qed.

(** Each keystroke of "reference" shortens the list or keeps it. *)
Example search_narrows_witness :
  sublist (filteredDocs (Content.docs noText) "reference")
          (filteredDocs (Content.docs noText) "re")
  /\ List.map id (filteredDocs (Content.docs noText) "reference")
     = ["language-reference"; "functions-reference"]
  /\ length (filteredDocs (Content.docs noText) "re") = 6.
Proof.
  split; [|split; reflexivity].
  exact (search_narrows (Content.docs noText) "re" "ference").
Defined.

(** X16. The theme button keeps its word.  For a selection the registry
    knows, the render throws nothing and reads [docs[0]] only; the label
    it puts on the theme button names the theme that a click on the
    button sets and stores; the moon is the icon exactly when that theme
    is [dark]; the click throws nothing, reads arrays in range only, and
    always changes the theme. *)
Theorem theme_button_keeps_its_word (docs : list DocPage) (st : AppState) (h : Host) :
  In (selectedDocId st) (ids docs) ->
  exists v st' h' reads,
    render docs st = (Returned v, [firstRecordRead docs])
    /\ act docs ClickThemeButton (st, h) = (Returned (st', h'), reads)
    /\ Forall inRange reads
    /\ themeLabel v = "Switch to " +:+ theme st' +:+ " mode"
    /\ (moonIcon v = true <-> theme st' = "dark")
    /\ localStorage h' !! "theme" = Some (theme st')
    /\ theme st' <> theme st.
Proof.
  intros Hid. destruct (render_known docs st Hid) as (d & _ & Hr0 & Hrender).
  destruct (render_known docs (toggleTheme st) Hid) as (d' & _ & _ & Hrender').
  do 4 eexists. split; [exact Hrender|].
  split; [cbn [act]; eapply bind_steps; [exact Hrender' | reflexivity]|].
  split; [auto using Forall_app_2, Forall_single|].
  unfold clickTheme. cbn [fst snd themeLabel moonIcon].
  split; [reflexivity|]. split; [|split].
  - unfold toggleTheme. cbn [theme].
    destruct (theme st === "light"); split; (reflexivity || discriminate).
  - apply applyTheme_stored.
  - apply toggleTheme_changes.
Qed.

Example theme_button_keeps_its_word_witness :
  exists v st' h' reads,
    render (Content.docs noText)
           {| selectedDocId := "introduction"; query := ""; theme := "light" |}
    = (Returned v, [{| arrayLength := 8; readIndex := 0 |}])
    /\ themeLabel v = "Switch to dark mode"
    /\ act (Content.docs noText) ClickThemeButton
           ({| selectedDocId := "introduction"; query := ""; theme := "light" |},
            {| localStorage := ∅; classList := ∅; prefersDark := false |})
       = (Returned (st', h'), reads)
    /\ theme st' = "dark".
Proof.
  destruct (theme_button_keeps_its_word (Content.docs noText)
              {| selectedDocId := "introduction"; query := ""; theme := "light" |}
              {| localStorage := ∅; classList := ∅; prefersDark := false |})
    as (v & st' & h' & reads & Hv & Hact & _ & Hlabel & Hmoon & _); [cbn; tauto|].
  exists v, st', h', reads.
  assert (theme st' = "dark") as Hd.
  { apply Hmoon. vm_compute in Hv. injection Hv as <-. reflexivity. }
  rewrite Hlabel, Hd. auto.
Defined.

(** X17. The selection effect comes to rest after one run.  The effect
    lists [selectedDocId] among its dependencies, so a run that changes
    the selection is followed by another run; for every registry and
    state the first run returns, and the run on its result changes
    nothing, reads no array and throws nothing. *)
Theorem selection_effect_comes_to_rest (docs : list DocPage) (st : AppState) :
  exists st' reads,
    repairSelection docs st = (Returned st', reads)
    /\ repairSelection docs st' = (Returned st', []).
Proof.
  destruct (repairSelection_reads docs st) as (st' & reads & Hrun & _).
  exists st', reads. split; [exact Hrun|].
  apply (repairSelection_settled docs st). rewrite Hrun. reflexivity.
Qed.

(** X18. A blank query shows everything and keeps the selection.  When
    the text in the search box is empty once trimmed, every record is
    shown, in registry order; and setting such a text keeps a selected id
    that is a registry id, without reading an array. *)
Theorem blank_query_keeps_selection (docs : list DocPage) (text : string) (st : AppState) :
  JS.trim text = "" ->
  filteredDocs docs text = docs
  /\ (In (selectedDocId st) (ids docs) ->
      setQuery docs text st =
        (Returned {| selectedDocId := selectedDocId st; query := text;
                     theme := theme st |}, [])).
Proof.
  intros Hblank.
  assert (filteredDocs docs text = docs) as Hall
    by (apply filteredDocs_blank; rewrite Hblank; reflexivity).
  split; [exact Hall|]. intros Hid.
  unfold setQuery. rewrite repairSelection_unfold. cbn [query selectedDocId].
  rewrite Hall. destruct docs as [|d rest]; [reflexivity|].
  apply stillVisible_In in Hid. rewrite Hid. reflexivity.
Qed.

(** The search box holding two blanks after a search was cleared. *)
Example blank_query_keeps_selection_witness :
  let st := {| selectedDocId := "eadv-model"; query := "eadv"; theme := "light" |} in
  filteredDocs (Content.docs noText) "  " = Content.docs noText
  /\ setQuery (Content.docs noText) "  " st =
       (Returned {| selectedDocId := "eadv-model"; query := "  "; theme := "light" |}, []).
Proof.
  cbv zeta.
  destruct (blank_query_keeps_selection (Content.docs noText) "  "
              {| selectedDocId := "eadv-model"; query := "eadv"; theme := "light" |})
    as (Hall & Hkeep); [reflexivity|].
  split; [exact Hall|]. apply Hkeep. cbn. tauto.
Defined.
